(** * FM radio application: preset store and tuner session

  A shallow embedding of [js/models/stations.js], [js/models/radio.js], the
  functions of [js/views/main.js] and [js/views/stationList.js] that act on
  the radio and the store, and the start of [js/app.js], with the
  properties of the specification and further properties of the code stated
  over it.  The widgets of the pages and of the popup are display only and
  are not part of it.

  Conventions of the embedding.
  - A JavaScript number is an exact rational ([Q]) in the state of the
    application: the decimal number that the double stands for; [===] on
    numbers is [Qeq] and [<] is [Qlt].  NaN and the infinities are outside
    the model.  Where a property depends on the rounding of doubles (the
    progress of a scan, the rounding of the reported frequency), the
    expression of the code is evaluated in binary64 (module [Double]) and
    the property is stated there.
  - An array is a [list]; [a[i]] is the list lookup [a !! i], which is
    [None] where JavaScript yields [undefined].
  - Module level variables ([var] in a module's closure) are the fields of
    one record per module; a function that writes them takes the record
    and returns the new one.
  - The event bus dispatches synchronously: [e.fire] is a call of the
    listener that [views/main] binds to the event. *)

From Stdlib Require Import QArith Qround Qabs Lqa.
From Stdlib Require Import Floats Uint63.
From stdpp Require Import base list sorting gmap strings pretty.

(** ** Decidable comparisons of numbers *)

#[global] Instance Qeq_decision (x y : Q) : Decision (x == y)%Q := Qeq_dec x y.

#[global] Instance Qlt_decision (x y : Q) : Decision (x < y)%Q.
Proof.
destruct (Qlt_le_dec x y) as [Hlt|Hle]; [left; exact Hlt | right].
apply Qle_not_lt, Hle.
Defined.

#[global] Instance Qle_decision (x y : Q) : Decision (x <= y)%Q.
Proof.
destruct (Qlt_le_dec y x) as [Hlt|Hle]; [right | left; exact Hle].
apply Qlt_not_le, Hlt.
Defined.

(** ** The fragment of JavaScript the sources rely on *)

Module Js.

Inductive error := TypeError.

(** The outcome of a call: a value, or an exception that nobody catches. *)
Inductive completion (A : Type) :=
| Normal (a : A)
| Throw (e : error).
Arguments Normal {A} a.
Arguments Throw {A} e.

(** An argument of a function whose parameter is documented as a boolean:
    a caller may leave it out. *)
Inductive boolean_arg :=
| Undefined
| Bool (b : bool).

(** [v === true] *)
Definition strict_eq_true (v : boolean_arg) : bool :=
  match v with
  | Bool true => true
  | _ => false
  end.

(** [a[i]] for an arbitrary integer index. *)
Definition index {A} (a : list A) (i : Z) : option A :=
  if decide (0 <= i)%Z then a !! Z.to_nat i else None.

(** [Math.round]: the nearest integer, a tie going up. *)
Definition Math_round (x : Q) : Q := inject_Z (Qfloor (x + (1 # 2))).

(** [a.sort(cmp)]: [x] is placed before [y] when [cmp x y <= 0]. *)
Definition sort {A} (cmp : A → A → Q) (a : list A) : list A :=
  merge_sort (λ x y, cmp x y <= 0)%Q a.

End Js.

(** ** The arithmetic of the code in binary64 *)

Module Double.

(** The double of an integer (exact below 2^53). *)
Definition of_Z (z : Z) : float :=
  if decide (0 <= z)%Z then PrimFloat.of_uint63 (Uint63.of_Z z)
  else PrimFloat.opp (PrimFloat.of_uint63 (Uint63.of_Z (- z))).


(** The exact value of a double, when it is finite. *)
Definition value (x : float) : option Q :=
  match Prim2SF x with
  | S754_zero _ => Some 0%Q
  | S754_finite s m e =>
      Some (inject_Z (if s then Z.neg m else Z.pos m) * Qpower 2 e)%Q
  | S754_infinity _ | S754_nan => None
  end.

(** [Math.round]: the integer nearest to the exact value, a tie going up;
    an integer, an infinity and NaN are returned as they are, and a value
    in [-0.5, 0) gives -0. *)
Definition Math_round (x : float) : float :=
  match Prim2SF x with
  | S754_finite s m e =>
      if decide (0 <= e)%Z then x
      else
        let n :=
          Qfloor (inject_Z (if s then Z.neg m else Z.pos m) * Qpower 2 e
                  + (1 # 2)) in
        if decide (n = 0)%Z
        then (if s then PrimFloat.opp PrimFloat.zero else PrimFloat.zero)
        else of_Z n
  | _ => x
  end.

(** The progress value of [onFrequencyFound] in [models/radio]. *)
Definition progress (frequency minFrequency maxFrequency : float) : float :=
  let range :=
    PrimFloat.sub (PrimFloat.mul maxFrequency (of_Z 10))
                  (PrimFloat.mul minFrequency (of_Z 10)) in
  PrimFloat.div
    (PrimFloat.mul (PrimFloat.sub frequency minFrequency) (of_Z 1000)) range.

(** [getFrequency] in [models/radio], [frequency] being [radio.frequency]. *)
Definition getFrequency (frequency : float) : float :=
  PrimFloat.div (Math_round (PrimFloat.mul frequency (of_Z 10))) (of_Z 10).

End Double.

(** ** models/stations *)

Module Station.
Record t := mk { name : string; frequency : Q }.
End Station.

Module Stations.

(** What [idb.add] stores under a key.  [JSON.stringify] of the station
    list is kept as the list itself. *)
Inductive dbvalue :=
| DbStations (l : list Station.t)
| DbNumber (q : Q).

Definition dbKeys_stations : string := "stations".
Definition dbKeys_lastFrequency : string := "lastFrequency".

(** The closure variables of the module and the key/value store behind
    [core/storage/idb] ([idb.add] writes the value of a key). *)
Record t := mk {
  stationList : list Station.t;
  lastFrequency : Q;
  idb : gmap string dbvalue
}.

Definition initial : t := mk [] 0 ∅.

Definition set_stationList (l : list Station.t) (s : t) : t :=
  mk l (lastFrequency s) (idb s).

Definition compare (a b : Station.t) : Q :=
  (Station.frequency a - Station.frequency b)%Q.

Definition saveToDatabase (s : t) : t :=
  mk (stationList s) (lastFrequency s)
     (<[dbKeys_lastFrequency := DbNumber (lastFrequency s)]>
        (<[dbKeys_stations := DbStations (stationList s)]> (idb s))).

Definition setLastFrequency (frequency : Q) (s : t) : t :=
  saveToDatabase (mk (stationList s) frequency (idb s)).

Definition getLastFrequency (s : t) : Q := lastFrequency s.

Definition getStationList (s : t) : list Station.t := stationList s.

Definition getStationName (freq : Q) (s : t) : string :=
  match list_find (λ station, Station.frequency station == freq)%Q
                  (stationList s) with
  | Some (_, station) => Station.name station
  | None => "UNNAMED"
  end.

Definition save (name : string) (frequency : Q)
    (overwrite : Js.boolean_arg) (s : t) : t :=
  saveToDatabase
    match list_find (λ station, Station.frequency station == frequency)%Q
                    (stationList s) with
    | Some (i, station) =>
        if Js.strict_eq_true overwrite
        then set_stationList
               (<[i := Station.mk name (Station.frequency station)]>
                  (stationList s)) s
        else s
    | None =>
        set_stationList
          (Js.sort compare (stationList s ++ [Station.mk name frequency])) s
    end.

Definition remove (frequency : Q) (s : t) : t :=
  saveToDatabase
    match list_find (λ station, Station.frequency station == frequency)%Q
                    (stationList s) with
    | Some (i, _) => set_stationList (delete i (stationList s)) s
    | None => s
    end.

Definition removeAll (s : t) : t := saveToDatabase (set_stationList [] s).

(** The ascending loop returns at the first station above [freq]; after
    the loop the code reads [stationList[0].frequency]. *)
Definition nextStation (freq : Q) (s : t) : Js.completion Q :=
  match list_find (λ station, freq < Station.frequency station)%Q
                  (stationList s) with
  | Some (_, station) => Js.Normal (Station.frequency station)
  | None =>
      match Js.index (stationList s) 0 with
      | Some station => Js.Normal (Station.frequency station)
      | None => Js.Throw Js.TypeError
      end
  end.

(** The descending loop returns at the first station below [freq], seen
    from the end; after it the code reads
    [stationList[stationsLen - 1].frequency]. *)
Definition prevStation (freq : Q) (s : t) : Js.completion Q :=
  match list_find (λ station, Station.frequency station < freq)%Q
                  (reverse (stationList s)) with
  | Some (_, station) => Js.Normal (Station.frequency station)
  | None =>
      match Js.index (stationList s)
                     (Z.of_nat (length (stationList s)) - 1) with
      | Some station => Js.Normal (Station.frequency station)
      | None => Js.Throw Js.TypeError
      end
  end.

(** The calls a client of the module can make on the collection. *)
Inductive call :=
| Save (name : string) (frequency : Q) (overwrite : Js.boolean_arg)
| Remove (frequency : Q)
| RemoveAll.

Definition run (c : call) (s : t) : t :=
  match c with
  | Save name frequency overwrite => save name frequency overwrite s
  | Remove frequency => remove frequency s
  | RemoveAll => removeAll s
  end.

Definition run_all (cs : list call) (s : t) : t :=
  foldl (λ s c, run c s) s cs.

End Stations.

(** ** views/popup, as far as the models call it *)

Module Popup.

(** The presentation layer is kept as the sequence of calls it receives;
    what the widgets do with them (the progress bar shows the floor of the
    value and the popup closes at 100) is not part of the model. *)
Inductive call :=
| UpdateProgress (progressValue : Q) (stationsFound : nat)
| ShowPopup (page title text : string).

Definition t := list call.

Definition updateProgress (progressValue : Q) (stationsFound : nat)
    (p : t) : t :=
  p ++ [UpdateProgress progressValue stationsFound].

Definition showPopup (page title text : string) (p : t) : t :=
  p ++ [ShowPopup page title text].

End Popup.

(** ** The platform object [tizen.fmradio] *)

Module FMRadio.

Inductive state := READY | PLAYING | SCANNING.

#[global] Instance state_eq_dec : EqDecision state.
Proof. solve_decision. Defined.

(** The functions of the application that are handed to the device. *)
Inductive callback :=
| CbScanStopSuccess
| CbErrorCallback
| CbScanCallback
| CbRefreshStation.

Inductive call :=
| Start (frequency : Q)
| Stop
| SeekUp (onsuccess onerror : callback)
| SeekDown (onsuccess onerror : callback)
| ScanStart (onscan onerror : callback)
| ScanStop (onsuccess onerror : callback).

Record error := mk_error { name : string; message : string }.

(** Modelled from the spec: the platform object [tizen.fmradio], which the
    sources use and do not define, after the device capability surface of
    section 6 and the transitions of section 4.1.  [start] tunes and plays,
    [stop] goes back to idle, [scanStart] enters the scanning state;
    [scanStop] and the seeks only register their callbacks, the answer
    arrives later as an event (see [App]).  [calls] records every call the
    application makes. *)
Record t := mk {
  state_of : state;
  frequency : Q;
  mute : bool;
  frequencyLowerBound : Q;
  frequencyUpperBound : Q;
  scanStopRequest : option (callback * callback);
  calls : list call
}.

Definition called (c : call) (d : t) : t :=
  mk (state_of d) (frequency d) (mute d) (frequencyLowerBound d)
     (frequencyUpperBound d) (scanStopRequest d) (calls d ++ [c]).

Definition set_state (s : state) (d : t) : t :=
  mk s (frequency d) (mute d) (frequencyLowerBound d)
     (frequencyUpperBound d) (scanStopRequest d) (calls d).

Definition set_frequency (f : Q) (d : t) : t :=
  mk (state_of d) f (mute d) (frequencyLowerBound d)
     (frequencyUpperBound d) (scanStopRequest d) (calls d).

Definition set_mute (b : bool) (d : t) : t :=
  mk (state_of d) (frequency d) b (frequencyLowerBound d)
     (frequencyUpperBound d) (scanStopRequest d) (calls d).

Definition set_scanStopRequest (r : option (callback * callback))
    (d : t) : t :=
  mk (state_of d) (frequency d) (mute d) (frequencyLowerBound d)
     (frequencyUpperBound d) r (calls d).

Definition start (freq : Q) (d : t) : t :=
  set_state PLAYING (set_frequency freq (called (Start freq) d)).

Definition stop (d : t) : t := set_state READY (called Stop d).

Definition seekUp (onsuccess onerror : callback) (d : t) : t :=
  called (SeekUp onsuccess onerror) d.

Definition seekDown (onsuccess onerror : callback) (d : t) : t :=
  called (SeekDown onsuccess onerror) d.

Definition scanStart (onscan onerror : callback) (d : t) : t :=
  set_state SCANNING (called (ScanStart onscan onerror) d).

Definition scanStop (onsuccess onerror : callback) (d : t) : t :=
  set_scanStopRequest (Some (onsuccess, onerror))
    (called (ScanStop onsuccess onerror) d).

(** The scan is over, by completion or by a cancel that succeeded: the
    device is idle again and no cancel is outstanding. *)
Definition scan_ended (d : t) : t :=
  set_scanStopRequest None (set_state READY d).

End FMRadio.

(** ** The state of the application *)

(** The closure variables of [models/radio]. *)
Record radio_vars := mk_radio_vars {
  minFrequency : Q;
  maxFrequency : Q;
  stationCount : nat;
  frequencyBeforeScan : Q
}.

(** The closure variables of [views/main] that the tuning functions write;
    the two labels hold what is displayed (the number before [toFixed]). *)
Record main_vars := mk_main_vars {
  buttonBlock : bool;
  frequencyLabel : Q;
  nameLabel : string
}.

Record world := mk_world {
  fmradio : FMRadio.t;
  radio : radio_vars;
  stations : Stations.t;
  popup : Popup.t;
  view : main_vars
}.

Definition with_fmradio (f : FMRadio.t → FMRadio.t) (w : world) : world :=
  mk_world (f (fmradio w)) (radio w) (stations w) (popup w) (view w).

Definition with_radio (f : radio_vars → radio_vars) (w : world) : world :=
  mk_world (fmradio w) (f (radio w)) (stations w) (popup w) (view w).

Definition with_stations (f : Stations.t → Stations.t) (w : world) : world :=
  mk_world (fmradio w) (radio w) (f (stations w)) (popup w) (view w).

Definition with_popup (f : Popup.t → Popup.t) (w : world) : world :=
  mk_world (fmradio w) (radio w) (stations w) (f (popup w)) (view w).

Definition with_view (f : main_vars → main_vars) (w : world) : world :=
  mk_world (fmradio w) (radio w) (stations w) (popup w) (f (view w)).

Definition set_stationCount (n : nat) (r : radio_vars) : radio_vars :=
  mk_radio_vars (minFrequency r) (maxFrequency r) n (frequencyBeforeScan r).

Definition set_frequencyBeforeScan (f : Q) (r : radio_vars) : radio_vars :=
  mk_radio_vars (minFrequency r) (maxFrequency r) (stationCount r) f.

Definition set_bounds (lo hi : Q) (r : radio_vars) : radio_vars :=
  mk_radio_vars lo hi (stationCount r) (frequencyBeforeScan r).

(** An event of the bus: its full name and the [frequency] of its detail,
    [None] when the detail carries [undefined]. *)
Definition listener := string → option Q → world → option world.

(** ** models/radio *)

Module Radio.

Definition initial : radio_vars := mk_radio_vars 87.5 108.0 0 0.

(** The object the module returns is built when the module is defined:
    its [minFrequency] and [maxFrequency] are copies of the variables at
    that moment, which [init] does not update. *)
Definition exports_minFrequency : Q := minFrequency initial.
Definition exports_maxFrequency : Q := maxFrequency initial.

Definition RADIO_STATE_PLAY : FMRadio.state := FMRadio.PLAYING.
Definition RADIO_STATE_SCAN : FMRadio.state := FMRadio.SCANNING.

(** The progress value that [onFrequencyFound] computes, read in exact
    arithmetic; [Double.progress] is the expression in doubles. *)
Definition progress_of (frequency : Q) (r : radio_vars) : Q :=
  let range := (maxFrequency r * 10 - minFrequency r * 10)%Q in
  ((frequency - minFrequency r) * 1000 / range)%Q.

Definition onFrequencyFound (frequency : Q) (w : world) : world :=
  let progress := progress_of frequency (radio w) in
  let w := with_radio (λ r, set_stationCount (stationCount r + 1) r) w in
  with_popup (Popup.updateProgress progress (stationCount (radio w))) w.

(** The loop of [onFinished], [i] being its counter. *)
Fixpoint save_found (i : nat) (frequencies : list Q) (w : world) : world :=
  match frequencies with
  | [] => w
  | frequency :: rest =>
      save_found (S i) rest
        (with_stations
           (Stations.save ("Station " +:+ pretty (i + 1)) frequency
                          Js.Undefined) w)
  end.

Definition onFinished (e_fire : listener) (frequencies : list Q)
    (w : world) : option world :=
  let w := with_radio (set_stationCount (length frequencies)) w in
  let w := with_popup (Popup.updateProgress 100 (stationCount (radio w))) w in
  let w := save_found 0 frequencies w in
  e_fire "models.radio.switchToFrequency" (frequencies !! 0%nat) w.

(** The state in which [onFinished] fires its event: the count and the
    popup are updated and the frequencies saved. *)
Definition onFinished_saved (frequencies : list Q) (w : world) : world :=
  let w := with_radio (set_stationCount (length frequencies)) w in
  let w := with_popup (Popup.updateProgress 100 (stationCount (radio w))) w in
  save_found 0 frequencies w.

Definition getState (w : world) : FMRadio.state :=
  FMRadio.state_of (fmradio w).

(** The frequency that the module reports, read in exact arithmetic;
    [Double.getFrequency] is the expression in doubles, and the two agree
    on the frequencies of the band in whole hundredths. *)
Definition getFrequency (w : world) : Q :=
  (Js.Math_round (FMRadio.frequency (fmradio w) * 10) / 10)%Q.

Definition setMuted (isMuted : bool) (w : world) : world :=
  with_fmradio (FMRadio.set_mute isMuted) w.

Definition start (freq : Q) (w : world) : world :=
  if decide (FMRadio.state_of (fmradio w) ≠ RADIO_STATE_SCAN)
  then with_fmradio (FMRadio.start freq) w
  else w.

Definition stop (w : world) : world :=
  if decide (FMRadio.state_of (fmradio w) = RADIO_STATE_PLAY)
  then with_fmradio FMRadio.stop w
  else w.

Definition scanStopSuccess (w : world) : world :=
  with_radio (set_frequencyBeforeScan 0)
    (start (frequencyBeforeScan (radio w)) w).

Definition errorCallback (error : FMRadio.error) (w : world) : world :=
  with_popup
    (Popup.showPopup "main-page" (FMRadio.name error)
                     (FMRadio.message error)) w.

Definition seekUp (successCb : FMRadio.callback) (w : world) : world :=
  if decide (FMRadio.state_of (fmradio w) = RADIO_STATE_PLAY)
  then with_fmradio (FMRadio.seekUp successCb FMRadio.CbErrorCallback) w
  else w.

Definition seekDown (successCb : FMRadio.callback) (w : world) : world :=
  if decide (FMRadio.state_of (fmradio w) = RADIO_STATE_PLAY)
  then with_fmradio (FMRadio.seekDown successCb FMRadio.CbErrorCallback) w
  else w.

Definition scanStart (w : world) : world :=
  let w :=
    if decide (FMRadio.state_of (fmradio w) = RADIO_STATE_PLAY)
    then with_fmradio FMRadio.stop w
    else w in
  let w := with_radio (set_stationCount 0) w in
  let w := with_radio (set_frequencyBeforeScan (getFrequency w)) w in
  with_fmradio
    (FMRadio.scanStart FMRadio.CbScanCallback FMRadio.CbErrorCallback) w.

Definition scanStop (w : world) : world :=
  if decide (FMRadio.state_of (fmradio w) = RADIO_STATE_SCAN)
  then with_fmradio
         (FMRadio.scanStop FMRadio.CbScanStopSuccess FMRadio.CbErrorCallback)
         w
  else w.

Definition onChangeAntennaConnectionListener (isAntennaConnected : bool)
    (w : world) : world :=
  if isAntennaConnected then start (getFrequency w) w else w.

Definition onInterrputed (reason : string) (w : world) : world :=
  with_popup (Popup.showPopup "main-page" "Radio interrupted" reason) w.

Definition onInterrputedFinish (w : world) : world :=
  start (getFrequency w) w.

(** The bounds are read from the device and the radio is started at the
    last frequency, or at the lower bound when there is none: [!freq] holds
    for the number 0.  The two listeners that [init] installs are
    [onInterrputed], [onInterrputedFinish] and
    [onChangeAntennaConnectionListener] above. *)
Definition init (w : world) : world :=
  let w :=
    with_radio (set_bounds (FMRadio.frequencyLowerBound (fmradio w))
                           (FMRadio.frequencyUpperBound (fmradio w))) w in
  let freq := Stations.getLastFrequency (stations w) in
  let freq := if decide (freq == 0)%Q then minFrequency (radio w) else freq in
  start freq w.

End Radio.

(** ** views/main: tuning *)

Module Main.

(** The labels are written, the buttons unblocked and the last frequency
    saved; the classes of the label and the state of the station buttons
    ([refreshStationButtons]) are display only and left out. *)
Definition refreshStation (w : world) : world :=
  let freq := Radio.getFrequency w in
  let name := Stations.getStationName freq (stations w) in
  let w := with_view (λ _, mk_main_vars false freq name) w in
  with_stations (Stations.setLastFrequency freq) w.

(** The value of the parameter [frequency] of [tune] when [radio.start] is
    called. *)
Definition tune_frequency (frequency : Q) : Q :=
  if decide (frequency < Radio.exports_minFrequency)%Q
  then Radio.exports_maxFrequency
  else if decide (Radio.exports_maxFrequency < frequency)%Q
       then Radio.exports_minFrequency
       else frequency.

Definition tune (frequency : Q) (w : world) : world :=
  refreshStation (Radio.start (tune_frequency frequency) w).

(** A step of a tenth, the decimal 0.1 as it is.  In doubles the sum and
    the difference are off the tenth by a rounding error, which
    [getFrequency] takes away when the frequency is read again. *)
Definition tuneDown (w : world) : world :=
  tune (Radio.getFrequency w - 0.1)%Q w.

Definition tuneUp (w : world) : world :=
  tune (Radio.getFrequency w + 0.1)%Q w.

(** With [undefined] as the frequency of the event, [tune] hands a value
    that is not a number to the device: no state is computed ([None]);
    what the application can be left in then is [tune_undefined] below. *)
Definition switchToFrequency (frequency : option Q) (w : world)
    : option world :=
  match frequency with
  | Some frequency => Some (tune frequency w)
  | None => None
  end.

(** [tune(undefined)] as the application runs it.  Neither comparison of
    [tune] holds for [undefined], and outside a scan [radio.start] hands it
    to the device.  What the device does with it the sources do not say:
    the call may throw, which ends the handler there, or return with the
    device in some state, after which the station is refreshed.  During a
    scan only the station is refreshed. *)
Definition tune_undefined (w w' : world) : Prop :=
  if decide (FMRadio.state_of (fmradio w) ≠ Radio.RADIO_STATE_SCAN)
  then ∃ device : FMRadio.t,
         w' = with_fmradio (λ _, device) w
         ∨ w' = refreshStation (with_fmradio (λ _, device) w)
  else w' = refreshStation w.

(** A seek is asked for only when no button press is being served. *)
Definition seekDown (w : world) : world :=
  if buttonBlock (view w) then w
  else Radio.seekDown FMRadio.CbRefreshStation
         (with_view (λ v, mk_main_vars true (frequencyLabel v) (nameLabel v))
                    w).

Definition seekUp (w : world) : world :=
  if buttonBlock (view w) then w
  else Radio.seekUp FMRadio.CbRefreshStation
         (with_view (λ v, mk_main_vars true (frequencyLabel v) (nameLabel v))
                    w).

Definition scanStop (w : world) : world := Radio.scanStop w.

(** [if (nextFreq)] holds for every number but 0. *)
Definition nextStation (w : world) : Js.completion world :=
  match Stations.nextStation (Radio.getFrequency w) (stations w) with
  | Js.Normal nextFreq =>
      Js.Normal (if decide (nextFreq == 0)%Q then w else tune nextFreq w)
  | Js.Throw e => Js.Throw e
  end.

Definition prevStation (w : world) : Js.completion world :=
  match Stations.prevStation (Radio.getFrequency w) (stations w) with
  | Js.Normal prevFreq =>
      Js.Normal (if decide (prevFreq == 0)%Q then w else tune prevFreq w)
  | Js.Throw e => Js.Throw e
  end.

(** The name typed in the popup is given to the frequency that the radio
    reports, an existing name being replaced. *)
Definition saveStationName (stationName : string) (w : world) : world :=
  refreshStation
    (with_stations
       (Stations.save stationName (Radio.getFrequency w) (Js.Bool true)) w).

(** The progress popup is shown, then the scan is started; the popup's
    button is bound to [scanStop]. *)
Definition onScanBtnClick (w : world) : world :=
  Radio.scanStart
    (with_popup
       (Popup.showPopup "main-page" "Scanning..." "Found stations: 0") w).

(** [init] binds the events (the listeners are [e_fire] below and the
    functions of this module) and initializes the radio. *)
Definition init (w : world) : world := Radio.init w.

(** The listeners that [bindEvents] registers on the bus.  The bus itself
    ([core/event]) is not among the sources: an event fired as
    [switchToFrequency] by the module [models/radio] reaches the listeners
    of [models.radio.switchToFrequency], at once and in the same turn. *)
Definition e_fire : listener := λ name frequency w,
  if decide (name = "views.stationList.switchToFrequency"
             ∨ name = "models.radio.switchToFrequency"
             ∨ name = "models.stations.switchToFrequency")
  then switchToFrequency frequency w
  else if decide (name = "views.stationList.refreshStation")
       then Some (refreshStation w)
       else Some w.

End Main.

(** ** views/stationList: the page of the saved stations *)

Module StationList.

(** The functions of the page work on the preset that was clicked last: its
    frequency is the closure variable [stationEditFreq], a parameter here.
    The list elements of the page are display only and left out. *)

(** The button that removes all presets is enabled when there is a preset;
    when there is none the main page is told to refresh its buttons. *)
Definition setupRemoveButton (e_fire : listener) (w : world) : option world :=
  if decide (length (Stations.getStationList (stations w)) = 0)%nat
  then e_fire "views.stationList.refreshStationButtons" None w
  else Some w.

Definition updateName (e_fire : listener) (stationEditFreq : Q)
    (name : string) (w : world) : option world :=
  e_fire "views.stationList.refreshStation" None
    (with_stations (Stations.save name stationEditFreq (Js.Bool true)) w).

Definition remove (e_fire : listener) (stationEditFreq : Q) (w : world)
    : option world :=
  match setupRemoveButton e_fire
          (with_stations (Stations.remove stationEditFreq) w) with
  | Some w => e_fire "views.stationList.refreshStation" None w
  | None => None
  end.

Definition removeAll (e_fire : listener) (w : world) : option world :=
  setupRemoveButton e_fire (with_stations Stations.removeAll w).

(** A click on a preset, outside its two icons. *)
Definition onStationListClick (e_fire : listener) (frequency : Q)
    (w : world) : option world :=
  e_fire "views.stationList.switchToFrequency" (Some frequency) w.

End StationList.

(** ** models/stations: reading the database *)

Module StationsDb.

(** [queryCallback] for the event that carries [key] and [value], [value]
    being what the database holds under [key], if anything.  A value is
    truthy when it is the text of a station list or a number other than 0.
    A number under the key of the stations, or a text under the key of the
    last frequency, puts a value of the wrong type into a variable: the
    model ends there ([None]). *)
Definition queryCallback (e_fire : listener) (key : string)
    (value : option Stations.dbvalue) (w : world) : option world :=
  match value with
  | None => Some w
  | Some (Stations.DbStations l) =>
      if decide (key = Stations.dbKeys_stations)
      then Some (with_stations (Stations.set_stationList l) w)
      else if decide (key = Stations.dbKeys_lastFrequency) then None
           else Some w
  | Some (Stations.DbNumber q) =>
      if decide (q == 0)%Q then Some w
      else if decide (key = Stations.dbKeys_stations) then None
           else if decide (key = Stations.dbKeys_lastFrequency)
                then e_fire "models.stations.switchToFrequency" (Some q)
                       (with_stations
                          (λ s, Stations.mk (Stations.stationList s) q
                                            (Stations.idb s)) w)
                else Some w
  end.

End StationsDb.

(** ** The answers of the device *)

Module App.

Definition initial (device : FMRadio.t) : world :=
  mk_world device Radio.initial Stations.initial [] (mk_main_vars false 0 "").

(** The callbacks that take no argument. *)
Definition run_callback (cb : FMRadio.callback) (w : world) : world :=
  match cb with
  | FMRadio.CbScanStopSuccess => Radio.scanStopSuccess w
  | FMRadio.CbRefreshStation => Main.refreshStation w
  | _ => w
  end.

(** The device has cancelled the scan: it is idle, and it calls the success
    callback of the outstanding [scanStop]. *)
Definition scanStop_succeeded (w : world) : world :=
  match FMRadio.scanStopRequest (fmradio w) with
  | Some (onsuccess, _) =>
      run_callback onsuccess (with_fmradio FMRadio.scan_ended w)
  | None => w
  end.

(** The device could not cancel the scan: the state is as before. *)
Definition scanStop_failed (error : FMRadio.error) (w : world) : world :=
  match FMRadio.scanStopRequest (fmradio w) with
  | Some (_, _) =>
      Radio.errorCallback error
        (with_fmradio (FMRadio.set_scanStopRequest None) w)
  | None => w
  end.

(** The scan reports one more frequency. *)
Definition scan_found (frequency : Q) (w : world) : world :=
  Radio.onFrequencyFound frequency w.

(** The scan is complete: the device is idle, and it hands over the list of
    the frequencies found. *)
Definition scan_finished (frequencies : list Q) (w : world) : option world :=
  Radio.onFinished Main.e_fire frequencies (with_fmradio FMRadio.scan_ended w).

(** The database answers a read of [key]: [queryCallback] receives what is
    stored under it.  ([core/storage/idb] is not among the sources; a read
    is taken to report the value last written under the key.) *)
Definition database_read (key : string) (w : world) : option world :=
  StationsDb.queryCallback Main.e_fire key
    (Stations.idb (stations w) !! key) w.

(** What can happen to the application: the user presses a button or
    confirms a popup, the device or the database reports.  The frequency
    entered in the popup is the number that the text of the input stands
    for; the popup lets no text through that stands for no number. *)
Inductive action :=
| PressTuneUp
| PressTuneDown
| PressSeekUp
| PressSeekDown
| PressNextStation
| PressPrevStation
| PressScan
| PressScanCancel
| EnterFrequency (frequency : Q)
| EnterStationName (stationName : string)
| ListRename (stationEditFreq : Q) (name : string)
| ListRemove (stationEditFreq : Q)
| ListRemoveAll
| ListSelect (frequency : Q)
| ScanFound (frequency : Q)
| ScanFinished (frequencies : list Q)
| ScanStopSucceeded
| ScanStopFailed (error : FMRadio.error)
| Interrupted (reason : string)
| InterruptFinished
| AntennaChanged (isAntennaConnected : bool)
| DatabaseRead (key : string).

Definition of_completion {A} (c : Js.completion A) : option A :=
  match c with
  | Js.Normal a => Some a
  | Js.Throw _ => None
  end.

(** The handler of each action; [None] when it throws or leaves the
    model. *)
Definition step (a : action) (w : world) : option world :=
  match a with
  | PressTuneUp => Some (Main.tuneUp w)
  | PressTuneDown => Some (Main.tuneDown w)
  | PressSeekUp => Some (Main.seekUp w)
  | PressSeekDown => Some (Main.seekDown w)
  | PressNextStation => of_completion (Main.nextStation w)
  | PressPrevStation => of_completion (Main.prevStation w)
  | PressScan => Some (Main.onScanBtnClick w)
  | PressScanCancel => Some (Main.scanStop w)
  | EnterFrequency frequency => Some (Main.tune frequency w)
  | EnterStationName stationName => Some (Main.saveStationName stationName w)
  | ListRename stationEditFreq name =>
      StationList.updateName Main.e_fire stationEditFreq name w
  | ListRemove stationEditFreq =>
      StationList.remove Main.e_fire stationEditFreq w
  | ListRemoveAll => StationList.removeAll Main.e_fire w
  | ListSelect frequency =>
      StationList.onStationListClick Main.e_fire frequency w
  | ScanFound frequency => Some (scan_found frequency w)
  | ScanFinished frequencies => scan_finished frequencies w
  | ScanStopSucceeded => Some (scanStop_succeeded w)
  | ScanStopFailed error => Some (scanStop_failed error w)
  | Interrupted reason => Some (Radio.onInterrputed reason w)
  | InterruptFinished => Some (Radio.onInterrputedFinish w)
  | AntennaChanged isAntennaConnected =>
      Some (Radio.onChangeAntennaConnectionListener isAntennaConnected w)
  | DatabaseRead key => database_read key w
  end.

(** The state of the application when the handler of an action is over.
    A handler that throws is aborted, the variables being what they were at
    the throw, and the application serves the next action: [nextStation]
    and [prevStation] throw before they write anything; a scan that ends
    with no frequency found leads to [tune(undefined)] once the count and
    the popup are updated.  A database with a value of the wrong type under
    a key has no outcome here. *)
Definition served (a : action) (w w' : world) : Prop :=
  match step a w with
  | Some w1 => w' = w1
  | None =>
      match a with
      | PressNextStation | PressPrevStation => w' = w
      | ScanFinished frequencies =>
          Main.tune_undefined
            (Radio.onFinished_saved frequencies
               (with_fmradio FMRadio.scan_ended w)) w'
      | _ => False
      end
  end.

(** A session: the actions of a list are served one after the other. *)
Fixpoint session (acts : list action) (w w' : world) : Prop :=
  match acts with
  | [] => w' = w
  | a :: acts => ∃ w1, served a w w1 ∧ session acts w1 w'
  end.

End App.

(** ** app: the start of the application *)

Module Startup.

(** [isRadioSupported]: the capability that the system reports, [false]
    when asking for it throws ([capability] is [None] then). *)
Definition isRadioSupported (capability : option bool) : bool :=
  match capability with
  | Some isSupported => isSupported
  | None => false
  end.

(** [showExitPopup]; the button of the popup exits the application. *)
Definition showExitPopup (title reason : string) (w : world) : world :=
  with_popup (Popup.showPopup "main-page" title reason) w.

Definition checkRequirements (capability : option bool)
    (isAntennaConnected : bool) (w : world) : bool * world :=
  if negb (isRadioSupported capability)
  then (false,
        showExitPopup "Unsupported device"
          "This device does not support radio feature." w)
  else if negb isAntennaConnected
       then (false,
             showExitPopup "Antenna not connected"
               "Antenna is not connected. Application will be closed." w)
       else (true, w).

(** [init], without the scaling of the picture and the back key. *)
Definition init (capability : option bool) (isAntennaConnected : bool)
    (w : world) : world :=
  let (ok, w) := checkRequirements capability isAntennaConnected w in
  if ok then Main.init w else w.

End Startup.

(** ** Sample states *)

(** A store with two presets. *)
Definition two_presets : Stations.t :=
  Stations.mk [Station.mk "Station 1" 90.0; Station.mk "Station 2" 95.5] 0 ∅.

(** The same store after a write to the database. *)
Definition two_presets_saved : Stations.t :=
  Stations.saveToDatabase two_presets.

(** A device in the middle of a scan that was started at 95.0, two
    frequencies found so far. *)
Definition scanning_device : FMRadio.t :=
  FMRadio.mk FMRadio.SCANNING 101.2 false 87.5 108.0 None
    [FMRadio.ScanStart FMRadio.CbScanCallback FMRadio.CbErrorCallback].

(** The application during that scan. *)
Definition scanning_world : world :=
  mk_world scanning_device (mk_radio_vars 87.5 108.0 2 95.0)
    Stations.initial [] (mk_main_vars false 95.0 "UNNAMED").

(** The application playing 95.0, nothing saved yet. *)
Definition playing_world : world :=
  mk_world (FMRadio.mk FMRadio.PLAYING 95.0 false 87.5 108.0 None [])
    Radio.initial Stations.initial [] (mk_main_vars false 95.0 "UNNAMED").

(** The application during a scan, with two presets saved before. *)
Definition scanning_over_presets : world :=
  mk_world scanning_device (mk_radio_vars 87.5 108.0 2 95.0)
    two_presets [] (mk_main_vars false 95.0 "UNNAMED").

(** The application playing the frequency [f], nothing saved yet. *)
Definition playing_at (f : Q) : world :=
  mk_world (FMRadio.mk FMRadio.PLAYING f false 87.5 108.0 None [])
    Radio.initial Stations.initial [] (mk_main_vars false f "UNNAMED").

(** The application with the radio idle. *)
Definition idle_world : world :=
  mk_world (FMRadio.mk FMRadio.READY 95.0 false 87.5 108.0 None [])
    Radio.initial Stations.initial [] (mk_main_vars false 95.0 "UNNAMED").

(** The application playing 95.5, which is the second of two presets. *)
Definition playing_preset : world :=
  mk_world (FMRadio.mk FMRadio.PLAYING 95.5 false 87.5 108.0 None [])
    Radio.initial two_presets_saved []
    (mk_main_vars false 95.5 "Station 2").

(** The application at its start, on a database that holds two presets and
    95.5 as the last frequency. *)
Definition saved_world : world :=
  mk_world (FMRadio.mk FMRadio.READY 87.5 false 87.5 108.0 None [])
    Radio.initial
    (Stations.setLastFrequency 95.5 two_presets) []
    (mk_main_vars false 0 "").

(** Some actions in a row: the next station is asked for with nothing
    saved, a scan finds nothing, a scan finds two stations, a step up, a
    name for the station, the list page, and the answers of the database. *)
Definition sample_session : list App.action :=
  [App.PressNextStation; App.PressScan; App.ScanFinished [];
   App.PressScan; App.ScanFound 95.5; App.ScanFound 90.0;
   App.ScanFinished [95.5; 90.0]%Q; App.PressTuneUp;
   App.EnterStationName "Jazz"; App.ListRename 90.0 "News";
   App.PressNextStation; App.ListRemove 95.5;
   App.DatabaseRead "stations"; App.DatabaseRead "lastFrequency"].

(** The application before [init], on a device whose band is 76.0 to
    108.0. *)
Definition wide_band_world : world :=
  App.initial (FMRadio.mk FMRadio.READY 76.0 false 76.0 108.0 None []).

(** * Properties *)

(** ** The invariant of the preset collection *)

(** The frequencies of a collection, in the order of the collection. *)
Definition frequencies (l : list Station.t) : list Q :=
  Station.frequency <$> l.

(** Later presets have greater frequencies. *)
Definition strictly_ascending (l : list Station.t) : Prop :=
  ∀ i j a b, l !! i = Some a → l !! j = Some b → (i < j)%nat →
    (Station.frequency a < Station.frequency b)%Q.

(** No two presets (at different places) have the same frequency. *)
Definition no_duplicate_frequency (l : list Station.t) : Prop :=
  ∀ i j a b, l !! i = Some a → l !! j = Some b →
    (Station.frequency a == Station.frequency b)%Q → i = j.

(** The form of the invariant that the proofs carry. *)
Definition ascending (l : list Station.t) : Prop :=
  StronglySorted Qlt (frequencies l).

(** A preset of the collection has the frequency [f]. *)
Definition is_preset (f : Q) (l : list Station.t) : Prop :=
  Exists (λ station, Station.frequency station == f)%Q l.

(** [nextStation] applied [k] times, each time to the frequency that the
    time before returned. *)
Fixpoint nextStation_times (k : nat) (f : Q) (s : Stations.t)
    : Js.completion Q :=
  match k with
  | O => Js.Normal f
  | S k =>
      match nextStation_times k f s with
      | Js.Normal g => Stations.nextStation g s
      | Js.Throw e => Js.Throw e
      end
  end.

(** A preset that [tune] reaches as it is: inside the band, at a number of
    tenths. *)
Definition tunable (station : Station.t) : Prop :=
  (Radio.exports_minFrequency <= Station.frequency station
   <= Radio.exports_maxFrequency)%Q
  ∧ ∃ m : Z, (Station.frequency station == inject_Z m / 10)%Q.

(** The seek calls that the device has received. *)
Definition is_seek (c : FMRadio.call) : bool :=
  match c with
  | FMRadio.SeekUp _ _ | FMRadio.SeekDown _ _ => true
  | _ => false
  end.

Definition seek_calls (w : world) : list FMRadio.call :=
  filter is_seek (FMRadio.calls (fmradio w)).

(** The scan reports the frequencies of a list, one after the other. *)
Definition scan_found_all (frequencies : list Q) (w : world) : world :=
  foldl (λ w frequency, App.scan_found frequency w) w frequencies.

(** The database holds the collection and the last frequency that the
    module has in its variables. *)
Definition persisted (s : Stations.t) : Prop :=
  Stations.idb s !! Stations.dbKeys_stations
    = Some (Stations.DbStations (Stations.stationList s))
  ∧ Stations.idb s !! Stations.dbKeys_lastFrequency
    = Some (Stations.DbNumber (Stations.lastFrequency s)).

(** The collection is in order, and so is the one in the database, if the
    database holds one; what the database holds under the two keys is of
    the type that [saveToDatabase] writes there. *)
Definition store_ok (s : Stations.t) : Prop :=
  ascending (Stations.stationList s)
  ∧ (∀ l, Stations.idb s !! Stations.dbKeys_stations
          = Some (Stations.DbStations l) → ascending l)
  ∧ (∀ q, Stations.idb s !! Stations.dbKeys_stations
          ≠ Some (Stations.DbNumber q))
  ∧ (∀ l, Stations.idb s !! Stations.dbKeys_lastFrequency
          ≠ Some (Stations.DbStations l)).





#[local] Instance Qle_transitive : Transitive Qle := Qle_trans.
#[local] Instance Qlt_transitive : Transitive Qlt := Qlt_trans.

#[local] Instance Qle_total : Total Qle.
Proof.
  intros x y. destruct (Qlt_le_dec x y) as [Hlt|Hle]; [left | right; exact Hle].
  apply Qlt_le_weak, Hlt.
Qed.

#[local] Instance compare_total :
  Total (λ x y, Stations.compare x y <= 0)%Q.
Proof.
  intros x y. unfold Stations.compare.
  destruct (Qlt_le_dec (Station.frequency x) (Station.frequency y));
    [left | right]; lra.
Qed.

#[local] Instance compare_transitive :
  Transitive (λ x y, Stations.compare x y <= 0)%Q.
Proof. intros x y z. unfold Stations.compare. lra. Qed.

Lemma StronglySorted_lookup {A} (R : relation A) (l : list A) :
  StronglySorted R l ↔
  ∀ i j a b, l !! i = Some a → l !! j = Some b → (i < j)%nat → R a b.
Proof.
  split.
  - induction 1 as [|x l Hl IH Hx]; intros i j a b Hi Hj Hij.
    + by rewrite lookup_nil in Hi.
    + destruct j as [|j]; [lia|]. destruct i as [|i]; simplify_eq/=.
      * rewrite Forall_forall in Hx. apply Hx.
        by eapply list_elem_of_lookup_2.
      * eapply IH; eauto with lia.
  - induction l as [|x l IH]; intros H; constructor.
    + apply IH. intros i j a b Hi Hj Hij.
      apply (H (S i) (S j)); [done..|lia].
    + apply Forall_forall. intros y [k Hk]%list_elem_of_lookup.
      apply (H 0%nat (S k)); [done..|lia].
Qed.

Lemma ascending_strictly (l : list Station.t) :
  ascending l → strictly_ascending l.
Proof.
  unfold ascending, frequencies. rewrite StronglySorted_lookup.
  intros H i j a b Hi Hj Hij.
  apply (H i j); [by rewrite list_lookup_fmap, Hi
                 |by rewrite list_lookup_fmap, Hj|done].
Qed.

Lemma strictly_no_duplicate (l : list Station.t) :
  strictly_ascending l → no_duplicate_frequency l.
Proof.
  intros H i j a b Hi Hj Heq.
  destruct (Nat.lt_trichotomy i j) as [Hlt|[->|Hlt]]; [|done|].
  - pose proof (H i j a b Hi Hj Hlt). lra.
  - pose proof (H j i b a Hj Hi Hlt). lra.
Qed.

(** *** Sorting a collection whose frequencies are distinct *)

Lemma Qred_eq (x y : Q) : Qred x = Qred y ↔ (x == y)%Q.
Proof. apply Qred_eq_iff. Qed.

Lemma strict_NoDup (fs : list Q) :
  StronglySorted Qlt fs → NoDup (Qred <$> fs).
Proof.
  induction 1 as [|x fs Hfs IH Hx]; csimpl; constructor; [|done].
  intros (y & Hxy & Hy)%list_elem_of_fmap.
  rewrite Forall_forall in Hx. apply Hx in Hy.
  apply Qred_eq in Hxy. lra.
Qed.

Lemma sorted_NoDup_strict (fs : list Q) :
  StronglySorted Qle fs → NoDup (Qred <$> fs) → StronglySorted Qlt fs.
Proof.
  induction 1 as [|x fs Hfs IH Hx]; csimpl; intros Hnd; constructor.
  - apply IH. by apply NoDup_cons_1_2 in Hnd.
  - apply NoDup_cons_1_1 in Hnd.
    rewrite Forall_forall in Hx |- *. intros y Hy.
    destruct (Qeq_dec x y) as [Heq|Hne].
    + destruct Hnd. apply list_elem_of_fmap. exists y. split; [|done].
      by apply Qred_eq.
    + specialize (Hx y Hy). lra.
Qed.

Lemma Js_sort_Permutation (l : list Station.t) :
  Js.sort Stations.compare l ≡ₚ l.
Proof. apply merge_sort_Permutation. Qed.

Lemma Js_sort_sorted (l : list Station.t) :
  StronglySorted Qle (frequencies (Js.sort Stations.compare l)).
Proof.
  unfold frequencies.
  apply StronglySorted_fmap
    with (R1 := (λ x y, Stations.compare x y <= 0)%Q).
  - intros x y. unfold Stations.compare. lra.
  - apply StronglySorted_merge_sort; apply _.
Qed.

Lemma ascending_insert (l : list Station.t) (x : Station.t) :
  ascending l →
  Forall (λ s, ¬ (Station.frequency s == Station.frequency x)%Q) l →
  ascending (Js.sort Stations.compare (l ++ [x])).
Proof.
  intros Hl Hx. apply sorted_NoDup_strict; [apply Js_sort_sorted|].
  unfold frequencies. rewrite Js_sort_Permutation.
  rewrite !fmap_app. apply NoDup_app. split_and!.
  - by apply strict_NoDup.
  - intros k (f & -> & (s & -> & Hs)%list_elem_of_fmap)%list_elem_of_fmap.
    rewrite Forall_forall in Hx. specialize (Hx s Hs).
    by intros Heq%list_elem_of_singleton%Qred_eq.
  - apply NoDup_singleton.
Qed.

Lemma StronglySorted_delete {A} (R : relation A) (l : list A) (i : nat) :
  StronglySorted R l → StronglySorted R (delete i l).
Proof.
  intros Hl. revert i.
  induction Hl as [|x l Hl IH Hx]; intros [|i]; simpl;
    [constructor|constructor|done|].
  constructor; [apply IH|].
  rewrite Forall_forall in Hx |- *. intros y Hy. apply Hx.
  by eapply (sublist_subseteq _ _ (sublist_delete l i)).
Qed.

Lemma strictly_ascending_ascending (l : list Station.t) :
  strictly_ascending l → ascending l.
Proof.
  intros H. apply StronglySorted_lookup. intros i j x y.
  unfold frequencies. rewrite !list_lookup_fmap.
  intros (a & Ha & ->)%fmap_Some (b & Hb & ->)%fmap_Some Hij.
  by apply (H i j).
Qed.

(** *** Every operation keeps the invariant *)

Lemma save_ascending name frequency overwrite (s : Stations.t) :
  ascending (Stations.stationList s) →
  ascending (Stations.stationList (Stations.save name frequency overwrite s)).
Proof.
  intros Hs. unfold Stations.save.
  destruct (list_find _ _) as [[i station]|] eqn:Hfind; simpl.
  - destruct (Js.strict_eq_true overwrite); simpl; [|done].
    apply list_find_Some in Hfind as (Hi & _ & _).
    unfold ascending, frequencies. rewrite list_fmap_insert. simpl.
    rewrite list_insert_id; [done|]. by rewrite list_lookup_fmap, Hi.
  - apply ascending_insert; [done|]. by apply list_find_None in Hfind.
Qed.

Lemma remove_ascending frequency (s : Stations.t) :
  ascending (Stations.stationList s) →
  ascending (Stations.stationList (Stations.remove frequency s)).
Proof.
  intros Hs. unfold Stations.remove.
  destruct (list_find _ _) as [[i station]|]; simpl; [|done].
  unfold ascending, frequencies. rewrite list_fmap_delete.
  by apply StronglySorted_delete.
Qed.

Lemma removeAll_ascending (s : Stations.t) :
  ascending (Stations.stationList (Stations.removeAll s)).
Proof. constructor. Qed.

Lemma run_ascending (c : Stations.call) (s : Stations.t) :
  ascending (Stations.stationList s) →
  ascending (Stations.stationList (Stations.run c s)).
Proof.
  intros Hs. destruct c as [name frequency overwrite|frequency|].
  - by apply save_ascending.
  - by apply remove_ascending.
  - apply removeAll_ascending.
Qed.

Lemma run_all_ascending (cs : list Stations.call) (s : Stations.t) :
  ascending (Stations.stationList s) →
  ascending (Stations.stationList (Stations.run_all cs s)).
Proof.
  revert s. induction cs as [|c cs IH]; intros s Hs; [done|].
  apply IH, run_ascending, Hs.
Qed.

(** C1.  Whatever calls of [save], [remove] and [removeAll] are made on the
    empty collection, the list that [getStationList] returns is strictly
    ascending by frequency and holds no frequency twice. *)
Theorem stationList_sorted_unique (cs : list Stations.call) :
  let l := Stations.getStationList (Stations.run_all cs Stations.initial) in
  strictly_ascending l ∧ no_duplicate_frequency l.
Proof.
  assert (strictly_ascending
            (Stations.stationList (Stations.run_all cs Stations.initial)))
    as H.
  { apply ascending_strictly, run_all_ascending. constructor. }
  split; [exact H | apply strictly_no_duplicate, H].
Qed.

(** ** Saving twice *)

Lemma save_found_again name frequency overwrite (s : Stations.t) :
  is_Some (list_find (λ station, Station.frequency station == frequency)%Q
             (Stations.stationList
                (Stations.save name frequency overwrite s))).
Proof.
  unfold Stations.save.
  destruct (list_find _ (Stations.stationList s))
    as [[i station]|] eqn:Hfind; simpl.
  - apply list_find_Some in Hfind as (Hi & Heq & _).
    destruct (Js.strict_eq_true overwrite); simpl.
    + apply list_find_elem_of with (x := Station.mk name (Station.frequency station));
        [|done].
      apply list_elem_of_lookup. exists i.
      apply list_lookup_insert_eq. by eapply lookup_lt_Some.
    + apply list_find_elem_of with (x := station); [|done].
      by eapply list_elem_of_lookup_2.
  - apply list_find_elem_of with (x := Station.mk name frequency);
      [|simpl; reflexivity].
    rewrite Js_sort_Permutation. set_solver.
Qed.

Lemma saveToDatabase_idemp (s : Stations.t) :
  Stations.saveToDatabase (Stations.saveToDatabase s)
  = Stations.saveToDatabase s.
Proof.
  unfold Stations.saveToDatabase. simpl. f_equal.
  apply map_eq. intros k. rewrite !lookup_insert.
  repeat case_decide; done.
Qed.

(** C5.  A second [save(name, f, false)] changes nothing: the collection
    has the size and the contents it had after the first one, and so have
    the last frequency and the stored values. *)
Theorem save_no_overwrite_idempotent name frequency (s : Stations.t) :
  let once := Stations.save name frequency (Js.Bool false) s in
  let twice := Stations.save name frequency (Js.Bool false) once in
  length (Stations.getStationList twice)
    = length (Stations.getStationList once)
  ∧ Stations.getStationList twice = Stations.getStationList once
  ∧ twice = once.
Proof.
  assert (Stations.save name frequency (Js.Bool false)
            (Stations.save name frequency (Js.Bool false) s)
          = Stations.save name frequency (Js.Bool false) s) as H.
  { destruct (save_found_again name frequency (Js.Bool false) s)
      as [[i station] Hfind].
    unfold Stations.save at 1. rewrite Hfind. simpl.
    unfold Stations.save. apply saveToDatabase_idemp. }
  cbv zeta. unfold Stations.getStationList. by rewrite H.
Qed.

(** ** The neighbours of a frequency *)

Lemma Js_index_nat {A} (a : list A) (i : nat) :
  Js.index a (Z.of_nat i) = a !! i.
Proof.
  unfold Js.index. rewrite decide_True by lia. by rewrite Nat2Z.id.
Qed.

(** C2.  On the empty collection neither [nextStation] nor [prevStation]
    returns: each reads the field [frequency] of [undefined] and throws a
    [TypeError]. *)
Theorem nextStation_prevStation_empty_throw (freq lastFrequency : Q)
    (idb : gmap string Stations.dbvalue) :
  Stations.nextStation freq (Stations.mk [] lastFrequency idb)
    = Js.Throw Js.TypeError
  ∧ Stations.prevStation freq (Stations.mk [] lastFrequency idb)
    = Js.Throw Js.TypeError.
Proof. split; reflexivity. Qed.

(** C3.  In a collection that satisfies its invariant and has two presets
    or more, going to the next preset from the frequency of a preset and
    then to the previous one leads back to that frequency, around the ends
    of the list too. *)
Theorem prevStation_nextStation (s : Stations.t) (f : Q) :
  strictly_ascending (Stations.stationList s) →
  (2 ≤ length (Stations.stationList s))%nat →
  (∃ station, station ∈ Stations.stationList s
              ∧ (Station.frequency station == f)%Q) →
  ∃ g h, Stations.nextStation f s = Js.Normal g
         ∧ Stations.prevStation g s = Js.Normal h
         ∧ (h == f)%Q.
Proof.
  intros Hs Hlen (st & [i Hi]%list_elem_of_lookup & Hf).
  pose proof (lookup_lt_Some _ _ _ Hi) as Hin.
  unfold Stations.nextStation, Stations.prevStation.
  destruct (list_find _ (Stations.stationList s))
    as [[j sj]|] eqn:Hnext.
  - (* a preset above [f]: the first one is the successor of [st] *)
    apply list_find_Some in Hnext as (Hj & Hgt & Hmin).
    exists (Station.frequency sj).
    destruct (list_find _ (reverse (Stations.stationList s)))
      as [[k sk]|] eqn:Hprev.
    + exists (Station.frequency sk). split_and!; [done..|].
      apply list_find_Some in Hprev as (Hk & Hlt & Hmax).
      apply reverse_lookup_Some in Hk as [Hk Hkn].
      destruct (Nat.lt_trichotomy (length (Stations.stationList s) - S k) i)
        as [Hm|[Hm|Hm]].
      * destruct (Hmax (length (Stations.stationList s) - S i)%nat st).
        -- apply reverse_lookup_Some. split; [|lia].
           by replace (length (Stations.stationList s)
                       - S (length (Stations.stationList s) - S i))%nat
             with i by lia.
        -- lia.
        -- lra.
      * rewrite Hm in Hk. by simplify_eq.
      * pose proof (Hs _ _ _ _ Hi Hk Hm) as Hik.
        destruct (decide (length (Stations.stationList s) - S k < j)%nat)
          as [Hkj|Hkj].
        -- destruct (Hmin _ _ Hk Hkj). lra.
        -- destruct (decide (length (Stations.stationList s) - S k = j))
             as [Heq|Hne].
           ++ rewrite Heq in Hk. simplify_eq. lra.
           ++ assert (j < length (Stations.stationList s) - S k)%nat
                as Hjk by lia.
              pose proof (Hs _ _ _ _ Hj Hk Hjk). lra.
    + apply list_find_None in Hprev. rewrite Forall_forall in Hprev.
      destruct (Hprev st); [|lra].
      apply elem_of_reverse. by eapply list_elem_of_lookup_2.
  - (* no preset above [f]: [st] is the last one, and the first is next *)
    apply list_find_None in Hnext. rewrite Forall_forall in Hnext.
    destruct (lookup_lt_is_Some_2 (Stations.stationList s) 0%nat)
      as [s0 H0]; [lia|].
    change 0%Z with (Z.of_nat 0). rewrite Js_index_nat, H0.
    exists (Station.frequency s0).
    destruct (list_find _ (reverse (Stations.stationList s)))
      as [[k sk]|] eqn:Hprev.
    + apply list_find_Some in Hprev as (Hk & Hlt & _).
      apply reverse_lookup_Some in Hk as [Hk Hkn].
      destruct (decide (length (Stations.stationList s) - S k = 0)%nat)
        as [Heq|Hne].
      * rewrite Heq in Hk. simplify_eq. lra.
      * assert (0 < length (Stations.stationList s) - S k)%nat
          as Hpos by lia.
        pose proof (Hs _ _ _ _ H0 Hk Hpos). lra.
    + replace (Z.of_nat (length (Stations.stationList s)) - 1)%Z
        with (Z.of_nat (length (Stations.stationList s) - 1)) by lia.
      rewrite Js_index_nat.
      destruct (lookup_lt_is_Some_2 (Stations.stationList s)
                  (length (Stations.stationList s) - 1)%nat)
        as [sl Hl]; [lia|].
      rewrite Hl. exists (Station.frequency sl). split_and!; [done..|].
      assert (¬ (f < Station.frequency sl)%Q) as Hle.
      { apply Hnext. by eapply list_elem_of_lookup_2. }
      destruct (decide (i = length (Stations.stationList s) - 1)%nat)
        as [Heq|Hne].
      * rewrite <- Heq in Hl. simplify_eq. done.
      * assert (i < length (Stations.stationList s) - 1)%nat as Hil by lia.
        pose proof (Hs _ _ _ _ Hi Hl Hil). lra.
Qed.

Lemma prevStation_nextStation_witness :
  ∃ g h, Stations.nextStation 95.5 two_presets = Js.Normal g
         ∧ Stations.prevStation g two_presets = Js.Normal h
         ∧ (h == 95.5)%Q.
Proof.
  apply prevStation_nextStation.
  - apply ascending_strictly. unfold ascending. simpl.
    repeat constructor.
  - simpl. lia.
  - exists (Station.mk "Station 2" 95.5). split; [set_solver | reflexivity].
Defined.

(** ** Manual tuning *)

(** C4.  The bounds that [tune] wraps at are not those of the device.  On
    a device whose band is 76.0 to 108.0, [init] reads these bounds into
    the variables of the radio module, and the request 80.0 lies within
    them; [tune] nevertheless starts the radio at 108.0.  It compares with
    the members [minFrequency] and [maxFrequency] of the object that the
    radio module returns, which are the values of the variables when the
    module was defined, 87.5 and 108.0: every request below 87.5 is
    started at 108.0. *)
Theorem tune_ignores_device_bounds :
  let w := Main.init wide_band_world in
  minFrequency (radio w) = 76.0%Q
  ∧ maxFrequency (radio w) = 108.0%Q
  ∧ (minFrequency (radio w) <= 80.0 <= maxFrequency (radio w))%Q
  ∧ Main.tune_frequency 80.0 = 108.0%Q
  ∧ FMRadio.state_of (fmradio (Main.tune 80.0 w)) = FMRadio.PLAYING
  ∧ FMRadio.frequency (fmradio (Main.tune 80.0 w)) = 108.0%Q
  ∧ FMRadio.calls (fmradio (Main.tune 80.0 w))
    = [FMRadio.Start 76.0; FMRadio.Start 108.0]
  ∧ ∀ f : Q, (f < 87.5)%Q → Main.tune_frequency f = 108.0%Q.
Proof.
  cbv zeta. split_and!; try reflexivity.
  - discriminate.
  - discriminate.
  - intros f Hf. unfold Main.tune_frequency. by rewrite decide_True.
Qed.

(** X27.  [tune] starts the radio at a frequency that is 108.0 when the
    request is below 87.5, 87.5 when the request is above 108.0, and the
    request otherwise; it is within 87.5 and 108.0 in every case.  These
    are the members [minFrequency] and [maxFrequency] of the radio module
    as [tune] reads them, the same on every device. *)
Theorem tune_wraps_into_bounds (f : Q) (w : world) :
  let lo := Radio.exports_minFrequency in
  let hi := Radio.exports_maxFrequency in
  let resolved := Main.tune_frequency f in
  Main.tune f w = Main.refreshStation (Radio.start resolved w)
  ∧ ((f < lo ∧ resolved = hi)
     ∨ (hi < f ∧ resolved = lo)
     ∨ (lo <= f <= hi ∧ resolved = f))%Q
  ∧ (lo <= resolved <= hi)%Q
  ∧ (lo == 87.5)%Q ∧ (hi == 108.0)%Q.
Proof.
  cbv zeta. split; [reflexivity|].
  unfold Main.tune_frequency.
  assert (Radio.exports_minFrequency == 87.5)%Q as Hlo by reflexivity.
  assert (Radio.exports_maxFrequency == 108)%Q as Hhi by reflexivity.
  repeat case_decide; split_and!; try lra; try reflexivity.
  - left. split; [done|reflexivity].
  - right. left. split; [done|reflexivity].
  - right. right. split; [lra|reflexivity].
Qed.

(** ** The tuner session *)

(** C8.  While the device is scanning, [start] does nothing at all: the
    state stays [SCANNING], the device receives no call, nothing is shown. *)
Theorem start_while_scanning_noop (f : Q) (w : world) :
  FMRadio.state_of (fmradio w) = FMRadio.SCANNING →
  Radio.start f w = w
  ∧ FMRadio.state_of (fmradio (Radio.start f w)) = FMRadio.SCANNING
  ∧ FMRadio.calls (fmradio (Radio.start f w)) = FMRadio.calls (fmradio w)
  ∧ popup (Radio.start f w) = popup w.
Proof.
  intros Hscan.
  assert (Radio.start f w = w) as ->; [|done].
  unfold Radio.start. rewrite Hscan. by rewrite decide_False by (by intros []).
Qed.

Lemma start_while_scanning_noop_witness :
  Radio.start 90.0 scanning_world = scanning_world
  ∧ FMRadio.state_of (fmradio (Radio.start 90.0 scanning_world))
    = FMRadio.SCANNING
  ∧ FMRadio.calls (fmradio (Radio.start 90.0 scanning_world))
    = FMRadio.calls (fmradio scanning_world)
  ∧ popup (Radio.start 90.0 scanning_world) = popup scanning_world.
Proof. apply start_while_scanning_noop. reflexivity. Defined.

Lemma scanStop_succeeded_restores (w : world) :
  FMRadio.state_of (fmradio w) = FMRadio.SCANNING →
  let w' := App.scanStop_succeeded (Radio.scanStop w) in
  FMRadio.state_of (fmradio w') = FMRadio.PLAYING
  ∧ FMRadio.frequency (fmradio w') = frequencyBeforeScan (radio w)
  ∧ frequencyBeforeScan (radio w') = 0%Q.
Proof.
  intros Hscan. unfold Radio.scanStop.
  by rewrite decide_True by done.
Qed.

Lemma scanStart_records (w : world) :
  FMRadio.state_of (fmradio (Radio.scanStart w)) = FMRadio.SCANNING
  ∧ frequencyBeforeScan (radio (Radio.scanStart w)) = Radio.getFrequency w
  ∧ stationCount (radio (Radio.scanStart w)) = 0%nat.
Proof. unfold Radio.scanStart. by case_decide. Qed.

(** C7.  A [scanStop] made while the device is scanning, with 95.0 recorded
    as the frequency before the scan, leaves the radio playing at 95.0 and
    the record reset once the device has reported the cancel; in another
    state [scanStop] changes nothing. *)
Theorem scanStop_restores_frequency :
  (∀ w : world,
     FMRadio.state_of (fmradio w) = FMRadio.SCANNING →
     frequencyBeforeScan (radio w) = 95.0%Q →
     let w' := App.scanStop_succeeded (Radio.scanStop w) in
     FMRadio.state_of (fmradio w') = FMRadio.PLAYING
     ∧ FMRadio.frequency (fmradio w') = 95.0%Q
     ∧ frequencyBeforeScan (radio w') = 0%Q)
  ∧ (∀ w : world,
       FMRadio.state_of (fmradio w) ≠ FMRadio.SCANNING →
       FMRadio.frequency (fmradio w) = 95.0%Q →
       let w' :=
         App.scanStop_succeeded (Radio.scanStop (Radio.scanStart w)) in
       frequencyBeforeScan (radio (Radio.scanStart w)) = 95.0%Q
       ∧ FMRadio.state_of (fmradio w') = FMRadio.PLAYING
       ∧ FMRadio.frequency (fmradio w') = 95.0%Q
       ∧ frequencyBeforeScan (radio w') = 0%Q)
  ∧ (∀ w : world,
       FMRadio.state_of (fmradio w) ≠ FMRadio.SCANNING →
       Radio.scanStop w = w).
Proof.
  split_and!.
  - intros w Hscan Hbefore. rewrite <- Hbefore.
    by apply scanStop_succeeded_restores.
  - intros w Hstate Hfreq.
    destruct (scanStart_records w) as (Hscan & Hbefore & _).
    assert (Radio.getFrequency w = 95.0%Q) as Hround.
    { unfold Radio.getFrequency. by rewrite Hfreq. }
    rewrite Hround in Hbefore. cbv zeta. split; [done|].
    rewrite <- Hbefore. by apply scanStop_succeeded_restores.
  - intros w Hstate. unfold Radio.scanStop. by rewrite decide_False.
Qed.

Lemma scanStop_restores_frequency_witness :
  (let w' := App.scanStop_succeeded (Radio.scanStop scanning_world) in
   FMRadio.state_of (fmradio w') = FMRadio.PLAYING
   ∧ FMRadio.frequency (fmradio w') = 95.0%Q
   ∧ frequencyBeforeScan (radio w') = 0%Q)
  ∧ (let w' :=
       App.scanStop_succeeded
         (Radio.scanStop (Radio.scanStart playing_world)) in
     frequencyBeforeScan (radio (Radio.scanStart playing_world)) = 95.0%Q
     ∧ FMRadio.state_of (fmradio w') = FMRadio.PLAYING
     ∧ FMRadio.frequency (fmradio w') = 95.0%Q
     ∧ frequencyBeforeScan (radio w') = 0%Q)
  ∧ Radio.scanStop playing_world = playing_world.
Proof.
  split_and!.
  - apply (proj1 scanStop_restores_frequency); reflexivity.
  - apply (proj1 (proj2 scanStop_restores_frequency));
      [discriminate | reflexivity].
  - apply (proj2 (proj2 scanStop_restores_frequency)). discriminate.
Defined.

(** ** The end of a scan *)

(** Leaving [overwrite] out is saving with [overwrite = false]. *)
Lemma save_undefined name frequency (s : Stations.t) :
  Stations.save name frequency Js.Undefined s
  = Stations.save name frequency (Js.Bool false) s.
Proof. reflexivity. Qed.

(** C6.  When the scan ends with the list 90.0, 95.5, 101.2 and the store is
    empty, the store is what three saves without overwrite make of it (then
    the write of the last frequency): Station 1 at 90.0, Station 2 at 95.5
    and Station 3 at 101.2, in this order; the radio plays at 90.0. *)
Theorem scan_finished_saves_stations (device : FMRadio.t) (r : radio_vars)
    (lastFrequency : Q) (idb : gmap string Stations.dbvalue)
    (p : Popup.t) (v : main_vars) :
  let w := mk_world device r (Stations.mk [] lastFrequency idb) p v in
  ∃ w', App.scan_finished [90.0; 95.5; 101.2]%Q w = Some w'
    ∧ Stations.getStationList (stations w')
      = [Station.mk "Station 1" 90.0; Station.mk "Station 2" 95.5;
         Station.mk "Station 3" 101.2]
    ∧ stations w'
      = Stations.setLastFrequency 90.0
          (Stations.run_all
             [Stations.Save "Station 1" 90.0 (Js.Bool false);
              Stations.Save "Station 2" 95.5 (Js.Bool false);
              Stations.Save "Station 3" 101.2 (Js.Bool false)]
             (stations w))
    ∧ FMRadio.state_of (fmradio w') = FMRadio.PLAYING
    ∧ FMRadio.frequency (fmradio w') = 90.0%Q
    ∧ Radio.getFrequency w' = 90.0%Q
    ∧ Stations.getLastFrequency (stations w') = 90.0%Q
    ∧ stationCount (radio w') = 3%nat
    ∧ popup w' = p ++ [Popup.UpdateProgress 100 3].
Proof.
  cbv zeta. eexists. split; [reflexivity|]. split_and!; reflexivity.
Qed.

(** ** The progress of a scan *)





(** ** The frequency that the radio module reports *)

Lemma Math_round_near (x : Q) :
  (x - (1 # 2) < Js.Math_round x ∧ Js.Math_round x <= x + (1 # 2))%Q.
Proof.
  unfold Js.Math_round.
  pose proof (Qfloor_le (x + (1 # 2))) as Hle.
  pose proof (Qlt_floor (x + (1 # 2))) as Hlt.
  rewrite inject_Z_plus in Hlt. change (inject_Z 1) with 1%Q in Hlt.
  split; lra.
Qed.

(** An integer other than [Math.round x] is no nearer to [x]. *)
Lemma Math_round_nearest (x : Q) (k : Z) :
  (Qabs (Js.Math_round x - x) <= Qabs (inject_Z k - x))%Q.
Proof.
  destruct (Math_round_near x) as [Hlo Hhi].
  assert (Qabs (Js.Math_round x - x) <= 1 # 2)%Q as Hnear.
  { apply Qabs_Qle_condition. split; lra. }
  unfold Js.Math_round in *.
  set (m := Qfloor (x + (1 # 2))) in *.
  destruct (Z_lt_le_dec k m) as [Hk|Hk].
  - assert (inject_Z k + 1 <= inject_Z m)%Q as Hq.
    { change 1%Q with (inject_Z 1). rewrite <- inject_Z_plus.
      rewrite <- Zle_Qle. lia. }
    rewrite <- (Qabs_opp (inject_Z k - x)).
    pose proof (Qle_Qabs (- (inject_Z k - x))). lra.
  - destruct (Z.eq_dec k m) as [->|Hne]; [apply Qle_refl|].
    assert (inject_Z m + 1 <= inject_Z k)%Q as Hq.
    { change 1%Q with (inject_Z 1). rewrite <- inject_Z_plus.
      rewrite <- Zle_Qle. lia. }
    pose proof (Qle_Qabs (inject_Z k - x)). lra.
Qed.






(** * Further properties of the code *)

(** ** The names of the presets *)

Lemma is_preset_find (f : Q) (l : list Station.t) :
  is_preset f l ↔
  is_Some (list_find (λ station, Station.frequency station == f)%Q l).
Proof.
  unfold is_preset. rewrite Exists_exists. split.
  - intros (st & Hin & Hf). by eapply list_find_elem_of.
  - intros [[i st] (Hi & Hf & _)%list_find_Some].
    exists st. split; [by eapply list_elem_of_lookup_2 | done].
Qed.

Lemma not_preset_find (f : Q) (l : list Station.t) :
  ¬ is_preset f l ↔
  list_find (λ station, Station.frequency station == f)%Q l = None.
Proof.
  rewrite is_preset_find, eq_None_not_Some. done.
Qed.

(** In a collection in order, the name found for a frequency is the name
    of the one preset that has it. *)
Lemma getStationName_elem (s : Stations.t) (st : Station.t) (g : Q) :
  ascending (Stations.stationList s) →
  st ∈ Stations.stationList s → (Station.frequency st == g)%Q →
  Stations.getStationName g s = Station.name st.
Proof.
  intros Hs [j Hj]%list_elem_of_lookup Hg. unfold Stations.getStationName.
  destruct (list_find _ _) as [[i y]|] eqn:Hfind.
  - apply list_find_Some in Hfind as (Hi & Hy & _).
    apply ascending_strictly, strictly_no_duplicate in Hs.
    assert (i = j) as -> by (apply (Hs i j y st); [done..|lra]).
    by simplify_eq.
  - apply list_find_None in Hfind. rewrite Forall_forall in Hfind.
    destruct (Hfind st); [by eapply list_elem_of_lookup_2 | done].
Qed.

Lemma getStationName_absent (s : Stations.t) (g : Q) :
  ¬ is_preset g (Stations.stationList s) →
  Stations.getStationName g s = "UNNAMED".
Proof.
  intros Hg%not_preset_find. unfold Stations.getStationName. by rewrite Hg.
Qed.

(** What [save] puts into the collection and what it keeps. *)
Lemma elem_of_save name frequency overwrite (s : Stations.t) (st : Station.t) :
  st ∈ Stations.stationList (Stations.save name frequency overwrite s) →
  st ∈ Stations.stationList s
  ∨ ((Station.frequency st == frequency)%Q ∧ Station.name st = name).
Proof.
  unfold Stations.save.
  destruct (list_find _ (Stations.stationList s))
    as [[i y]|] eqn:Hfind; simpl.
  - destruct (Js.strict_eq_true overwrite); simpl; [|by left].
    apply list_find_Some in Hfind as (Hi & Hy & _).
    intros [j Hj]%list_elem_of_lookup.
    destruct (decide (i = j)) as [->|Hne].
    + rewrite list_lookup_insert_eq in Hj by (by eapply lookup_lt_Some).
      simplify_eq. by right.
    + rewrite list_lookup_insert_ne in Hj by done.
      left. by eapply list_elem_of_lookup_2.
  - rewrite Js_sort_Permutation, elem_of_app, list_elem_of_singleton.
    intros [Hin| ->]; [by left | right]. simpl. split; reflexivity.
Qed.

Lemma save_keeps_others name frequency overwrite (s : Stations.t)
    (st : Station.t) :
  st ∈ Stations.stationList s →
  ¬ (Station.frequency st == frequency)%Q →
  st ∈ Stations.stationList (Stations.save name frequency overwrite s).
Proof.
  intros [j Hj]%list_elem_of_lookup Hne. unfold Stations.save.
  destruct (list_find _ (Stations.stationList s))
    as [[i y]|] eqn:Hfind; simpl.
  - destruct (Js.strict_eq_true overwrite); simpl;
      [|by eapply list_elem_of_lookup_2].
    apply list_find_Some in Hfind as (Hi & Hy & _).
    apply list_elem_of_lookup. exists j.
    rewrite list_lookup_insert_ne; [done|]. intros ->. by simplify_eq.
  - rewrite Js_sort_Permutation, elem_of_app. left.
    by eapply list_elem_of_lookup_2.
Qed.

Lemma save_stationList_new name frequency overwrite (s : Stations.t) :
  list_find (λ station, Station.frequency station == frequency)%Q
            (Stations.stationList s) = None →
  Stations.stationList (Stations.save name frequency overwrite s)
  = Js.sort Stations.compare
      (Stations.stationList s ++ [Station.mk name frequency]).
Proof. intros Hnone. unfold Stations.save. by rewrite Hnone. Qed.

Lemma save_names_frequency name frequency overwrite (s : Stations.t) :
  Stations.getStationName frequency
    (Stations.save name frequency overwrite s)
  = if decide (is_preset frequency (Stations.stationList s))
    then if Js.strict_eq_true overwrite then name
         else Stations.getStationName frequency s
    else name.
Proof.
  case_decide as Hpre.
  - apply is_preset_find in Hpre as [[i y] Hfind].
    unfold Stations.save, Stations.getStationName at 2. rewrite Hfind.
    destruct (Js.strict_eq_true overwrite); simpl.
    + unfold Stations.getStationName. simpl.
      apply list_find_Some in Hfind as (Hi & Hy & Hmin).
      assert (list_find (λ station, Station.frequency station == frequency)%Q
                (<[i:=Station.mk name (Station.frequency y)]>
                   (Stations.stationList s))
              = Some (i, Station.mk name (Station.frequency y))) as ->;
        [|done].
      apply list_find_Some. split_and!.
      * apply list_lookup_insert_eq. by eapply lookup_lt_Some.
      * done.
      * intros j z Hj Hlt. rewrite list_lookup_insert_ne in Hj by lia.
        by eapply Hmin.
    + unfold Stations.getStationName. simpl. by rewrite Hfind.
  - pose proof Hpre as Hnone%not_preset_find.
    unfold Stations.getStationName.
    rewrite (save_stationList_new name frequency overwrite s Hnone).
    destruct (list_find _ (Js.sort _ _)) as [[i y]|] eqn:Hfind.
    + apply list_find_Some in Hfind as (Hi%list_elem_of_lookup_2 & Hy & _).
      rewrite Js_sort_Permutation, elem_of_app, list_elem_of_singleton in Hi.
      destruct Hi as [Hi| ->]; [|done].
      destruct Hpre. apply Exists_exists. eauto.
    + apply list_find_None in Hfind. rewrite Forall_forall in Hfind.
      destruct (Hfind (Station.mk name frequency)); [|simpl; reflexivity].
      rewrite Js_sort_Permutation. set_solver.
Qed.

(** X1.  After [save(name, f, overwrite)] the name found for [f] is [name]
    when [f] was no preset or [overwrite] is [true], and the name that [f]
    had otherwise. *)
Theorem getStationName_after_save name frequency overwrite
    (s : Stations.t) :
  Stations.getStationName frequency
    (Stations.save name frequency overwrite s)
  = if decide (is_preset frequency (Stations.stationList s))
    then if Js.strict_eq_true overwrite then name
         else Stations.getStationName frequency s
    else name.
Proof. apply save_names_frequency. Qed.

Lemma save_keeps_other_names name frequency overwrite (s : Stations.t)
    (g : Q) :
  ascending (Stations.stationList s) →
  ¬ (g == frequency)%Q →
  Stations.getStationName g (Stations.save name frequency overwrite s)
  = Stations.getStationName g s.
Proof.
  intros Hs Hne.
  pose proof (save_ascending name frequency overwrite s Hs) as Hs'.
  destruct (decide (is_preset g (Stations.stationList s))) as [Hpre|Hpre].
  - apply Exists_exists in Hpre as (st & Hin & Hg).
    rewrite (getStationName_elem s st g) by done.
    apply getStationName_elem; [done| |done].
    apply save_keeps_others; [done|]. lra.
  - rewrite (getStationName_absent s g) by done.
    apply getStationName_absent. intros (st & Hin & Hg)%Exists_exists.
    apply elem_of_save in Hin as [Hin|[Hf _]]; [|lra].
    destruct Hpre. apply Exists_exists. eauto.
Qed.

(** X2.  In a collection in order, [save] for the frequency [f] leaves the
    name found for every other frequency as it was. *)
Theorem save_other_frequency_name name frequency overwrite
    (s : Stations.t) (g : Q) :
  strictly_ascending (Stations.stationList s) →
  ¬ (g == frequency)%Q →
  Stations.getStationName g (Stations.save name frequency overwrite s)
  = Stations.getStationName g s.
Proof.
  intros Hs%strictly_ascending_ascending. by apply save_keeps_other_names.
Qed.

Lemma two_presets_ascending :
  strictly_ascending (Stations.stationList two_presets).
Proof.
  apply ascending_strictly. unfold ascending. simpl. repeat constructor.
Qed.

Lemma save_other_frequency_name_witness :
  Stations.getStationName 90.0
    (Stations.save "Jazz" 95.5 (Js.Bool true) two_presets)
  = Stations.getStationName 90.0 two_presets.
Proof.
  apply save_other_frequency_name; [apply two_presets_ascending | discriminate].
Defined.

(** ** Removing a preset *)

Lemma elem_of_remove frequency (s : Stations.t) (st : Station.t) :
  ascending (Stations.stationList s) →
  st ∈ Stations.stationList (Stations.remove frequency s) ↔
  st ∈ Stations.stationList s ∧ ¬ (Station.frequency st == frequency)%Q.
Proof.
  intros Hs. unfold Stations.remove.
  destruct (list_find _ _) as [[i y]|] eqn:Hfind; simpl.
  - apply list_find_Some in Hfind as (Hi & Hy & _).
    pose proof (strictly_no_duplicate _ (ascending_strictly _ Hs)) as Hnd.
    split.
    + intros [j Hj]%list_elem_of_lookup. split.
      * eapply list_elem_of_delete_inv, list_elem_of_lookup_2, Hj.
      * intros Hf. rewrite list_lookup_delete in Hj. case_decide.
        -- assert (j = i) by (apply (Hnd j i st y); [done..|lra]). lia.
        -- assert (S j = i) by (apply (Hnd (S j) i st y); [done..|lra]). lia.
    + intros [[j Hj]%list_elem_of_lookup Hne].
      assert (j ≠ i) by (intros ->; by simplify_eq).
      apply list_elem_of_lookup.
      destruct (decide (j < i)%nat).
      * exists j. by rewrite list_lookup_delete_lt.
      * exists (j - 1)%nat. rewrite list_lookup_delete_ge by lia.
        by replace (S (j - 1)) with j by lia.
  - apply list_find_None in Hfind. rewrite Forall_forall in Hfind.
    split; [intros Hin; split; [done | by apply Hfind] | by intros [Hin _]].
Qed.

(** X3.  In a collection in order, [remove(f)] takes out the preset that
    has the frequency [f] and no other: the presets afterwards are the
    former ones whose frequency is not [f], and the name found for [f] is
    the marker UNNAMED. *)
Theorem remove_takes_out_frequency frequency (s : Stations.t) :
  strictly_ascending (Stations.stationList s) →
  (∀ st, st ∈ Stations.getStationList (Stations.remove frequency s) ↔
         st ∈ Stations.getStationList s
         ∧ ¬ (Station.frequency st == frequency)%Q)
  ∧ Stations.getStationName frequency (Stations.remove frequency s)
    = "UNNAMED".
Proof.
  intros Hs%strictly_ascending_ascending. split.
  - intros st. by apply elem_of_remove.
  - apply getStationName_absent. intros (st & Hin & Hf)%Exists_exists.
    apply elem_of_remove in Hin as [_ Hne]; done.
Qed.

Lemma remove_takes_out_frequency_witness :
  (∀ st, st ∈ Stations.getStationList (Stations.remove 90.0 two_presets) ↔
         st ∈ Stations.getStationList two_presets
         ∧ ¬ (Station.frequency st == 90.0)%Q)
  ∧ Stations.getStationName 90.0 (Stations.remove 90.0 two_presets)
    = "UNNAMED".
Proof. apply remove_takes_out_frequency, two_presets_ascending. Defined.

Lemma persisted_saveToDatabase (s : Stations.t) :
  persisted (Stations.saveToDatabase s).
Proof.
  unfold persisted, Stations.saveToDatabase. simpl. split.
  - rewrite lookup_insert_ne by done. apply lookup_insert_eq.
  - apply lookup_insert_eq.
Qed.

Lemma saveToDatabase_persisted (s : Stations.t) :
  persisted s → Stations.saveToDatabase s = s.
Proof.
  intros [Hst Hlf]. destruct s as [l f db]. unfold Stations.saveToDatabase.
  simpl in *. f_equal. rewrite (insert_id db _ _ Hst). by apply insert_id.
Qed.

(** X4.  [remove(f)] for a frequency that is no preset keeps the collection
    and the last frequency and writes both to the database again; when the
    database held them already, nothing changes at all. *)
Theorem remove_absent_frequency frequency (s : Stations.t) :
  ¬ is_preset frequency (Stations.stationList s) →
  Stations.remove frequency s = Stations.saveToDatabase s
  ∧ Stations.getStationList (Stations.remove frequency s)
    = Stations.getStationList s
  ∧ Stations.getLastFrequency (Stations.remove frequency s)
    = Stations.getLastFrequency s
  ∧ (persisted s → Stations.remove frequency s = s).
Proof.
  intros Hnone%not_preset_find.
  assert (Stations.remove frequency s = Stations.saveToDatabase s) as ->.
  { unfold Stations.remove. by rewrite Hnone. }
  split_and!; [done..|]. apply saveToDatabase_persisted.
Qed.

Lemma remove_absent_frequency_witness :
  Stations.remove 101.2 two_presets_saved
  = Stations.saveToDatabase two_presets_saved
  ∧ Stations.getStationList (Stations.remove 101.2 two_presets_saved)
    = Stations.getStationList two_presets_saved
  ∧ Stations.getLastFrequency (Stations.remove 101.2 two_presets_saved)
    = Stations.getLastFrequency two_presets_saved
  ∧ Stations.remove 101.2 two_presets_saved = two_presets_saved.
Proof.
  destruct (remove_absent_frequency 101.2 two_presets_saved)
    as (H1 & H2 & H3 & H4).
  - apply not_preset_find. reflexivity.
  - split_and!; [exact H1 | exact H2 | exact H3 |].
    apply H4, persisted_saveToDatabase.
Defined.

(** X5.  The size of the collection: [save] adds one preset when the
    frequency is new and none otherwise; [remove] takes one away when the
    frequency is a preset and none otherwise. *)
Theorem save_remove_length name frequency overwrite (s : Stations.t) :
  length (Stations.getStationList (Stations.save name frequency overwrite s))
  = (if decide (is_preset frequency (Stations.stationList s))
     then length (Stations.getStationList s)
     else S (length (Stations.getStationList s)))
  ∧ length (Stations.getStationList (Stations.remove frequency s))
    = (if decide (is_preset frequency (Stations.stationList s))
       then length (Stations.getStationList s) - 1
       else length (Stations.getStationList s))%nat.
Proof.
  unfold Stations.getStationList. case_decide as Hpre.
  - apply is_preset_find in Hpre as [[i y] Hfind].
    unfold Stations.save, Stations.remove. rewrite Hfind. split.
    + destruct (Js.strict_eq_true overwrite); simpl; [|done].
      apply length_insert.
    + simpl. rewrite length_delete; [lia|].
      apply list_find_Some in Hfind as (Hi & _). eauto.
  - apply not_preset_find in Hpre. split.
    + rewrite save_stationList_new by done.
      rewrite Js_sort_Permutation, length_app. simpl. lia.
    + unfold Stations.remove. by rewrite Hpre.
Qed.

Lemma ascending_StronglySorted (l : list Station.t) :
  ascending l →
  StronglySorted (λ a b, Station.frequency a < Station.frequency b)%Q l.
Proof.
  intros Hl%ascending_strictly. by apply StronglySorted_lookup.
Qed.

Lemma remove_save_stationList name frequency overwrite (s : Stations.t) :
  ascending (Stations.stationList s) →
  ¬ is_preset frequency (Stations.stationList s) →
  Stations.stationList
    (Stations.remove frequency (Stations.save name frequency overwrite s))
  = Stations.stationList s.
Proof.
  intros Hs Hpre.
  pose proof (save_ascending name frequency overwrite s Hs) as Hs'.
  pose proof (remove_ascending frequency _ Hs') as Hs''.
  apply (StronglySorted_unique_strong
           (λ a b, Station.frequency a < Station.frequency b)%Q);
    [intros; lra | by apply ascending_StronglySorted..|].
  pose proof Hpre as Hnone%not_preset_find.
  pose proof (save_stationList_new name frequency overwrite s Hnone) as Hl.
  clear Hs' Hs''.
  remember (Stations.save name frequency overwrite s) as s' eqn:Hs'.
  clear Hs'. unfold Stations.remove.
  destruct (list_find _ (Stations.stationList s'))
    as [[i y]|] eqn:Hfind; simpl.
  - apply list_find_Some in Hfind as (Hi & Hy & _).
    assert (y = Station.mk name frequency) as ->.
    { pose proof (list_elem_of_lookup_2 _ _ _ Hi) as Hin.
      rewrite Hl, Js_sort_Permutation, elem_of_app, list_elem_of_singleton
        in Hin.
      destruct Hin as [Hin|Heq]; [|done].
      destruct Hpre. apply Exists_exists. eauto. }
    apply (Permutation_cons_inv (a := Station.mk name frequency)).
    rewrite <- (delete_Permutation _ _ _ Hi), Hl, Js_sort_Permutation.
    by rewrite Permutation_app_comm.
  - apply list_find_None in Hfind. rewrite Forall_forall in Hfind.
    destruct (Hfind (Station.mk name frequency)); [|simpl; reflexivity].
    rewrite Hl, Js_sort_Permutation. set_solver.
Qed.

(** X6.  In a collection in order, saving a frequency that is no preset and
    removing it again gives back the collection as it was. *)
Theorem remove_after_save name frequency overwrite (s : Stations.t) :
  strictly_ascending (Stations.stationList s) →
  ¬ is_preset frequency (Stations.stationList s) →
  Stations.getStationList
    (Stations.remove frequency (Stations.save name frequency overwrite s))
  = Stations.getStationList s.
Proof.
  intros Hs%strictly_ascending_ascending Hpre.
  by apply remove_save_stationList.
Qed.

Lemma remove_after_save_witness :
  Stations.getStationList
    (Stations.remove 93.0 (Stations.save "Jazz" 93.0 Js.Undefined two_presets))
  = Stations.getStationList two_presets.
Proof.
  apply remove_after_save; [apply two_presets_ascending|].
  apply not_preset_find. reflexivity.
Defined.

(** ** The database *)

Lemma mutators_persist_run (c : Stations.call) (s : Stations.t) :
  persisted (Stations.run c s).
Proof.
  destruct c as [name frequency overwrite|frequency|];
    apply persisted_saveToDatabase.
Qed.

(** X7.  Every call that changes the collection or the last frequency
    leaves the database with the collection and the last frequency that the
    module then has. *)
Theorem mutators_persist (s : Stations.t) :
  (∀ c : Stations.call, persisted (Stations.run c s))
  ∧ (∀ frequency : Q, persisted (Stations.setLastFrequency frequency s)).
Proof.
  split.
  - intros c. apply mutators_persist_run.
  - intros frequency. apply persisted_saveToDatabase.
Qed.

Lemma refreshStation_fields (w : world) :
  fmradio (Main.refreshStation w) = fmradio w
  ∧ radio (Main.refreshStation w) = radio w
  ∧ popup (Main.refreshStation w) = popup w
  ∧ Stations.stationList (stations (Main.refreshStation w))
    = Stations.stationList (stations w)
  ∧ Stations.lastFrequency (stations (Main.refreshStation w))
    = Radio.getFrequency w
  ∧ view (Main.refreshStation w)
    = mk_main_vars false (Radio.getFrequency w)
        (Stations.getStationName (Radio.getFrequency w) (stations w)).
Proof. done. Qed.

Lemma start_fields (f : Q) (w : world) :
  radio (Radio.start f w) = radio w
  ∧ stations (Radio.start f w) = stations w
  ∧ popup (Radio.start f w) = popup w
  ∧ view (Radio.start f w) = view w.
Proof. unfold Radio.start. by case_decide. Qed.

Lemma start_device (f : Q) (w : world) :
  FMRadio.state_of (fmradio w) ≠ FMRadio.SCANNING →
  fmradio (Radio.start f w) = FMRadio.start f (fmradio w).
Proof. intros Hstate. unfold Radio.start. by rewrite decide_True. Qed.

Lemma tune_device (f : Q) (w : world) :
  FMRadio.state_of (fmradio w) ≠ FMRadio.SCANNING →
  fmradio (Main.tune f w) = FMRadio.start (Main.tune_frequency f) (fmradio w).
Proof. intros Hstate. unfold Main.tune. simpl. by apply start_device. Qed.

Lemma tune_stationList (f : Q) (w : world) :
  Stations.stationList (stations (Main.tune f w))
  = Stations.stationList (stations w).
Proof.
  unfold Main.tune. simpl.
  by destruct (start_fields (Main.tune_frequency f) w) as (_ & -> & _).
Qed.

(** X8.  The collection comes back from the database: after any call that
    changes the store, a module that starts on the database of that store
    and receives the stored value of the key of the stations has the
    collection of that store, whatever it held before. *)
Theorem stations_read_back (c : Stations.call) (s0 : Stations.t)
    (device : FMRadio.t) (r : radio_vars) (l : list Station.t) (f : Q)
    (p : Popup.t) (v : main_vars) :
  let s := Stations.run c s0 in
  App.database_read Stations.dbKeys_stations
    (mk_world device r (Stations.mk l f (Stations.idb s)) p v)
  = Some (mk_world device r
            (Stations.mk (Stations.getStationList s) f (Stations.idb s)) p v).
Proof.
  cbv zeta. unfold App.database_read. simpl.
  destruct (mutators_persist_run c s0) as [-> _]. done.
Qed.

(** X9.  When the database reports the stored last frequency [q]: for
    [q = 0] nothing happens; otherwise the radio is tuned to [q], wrapped
    into the bounds (it stays as it is during a scan), the collection is
    kept, and the last frequency becomes the one that the radio then
    reports. *)
Theorem lastFrequency_read (q : Q) (w : world) :
  Stations.idb (stations w) !! Stations.dbKeys_lastFrequency
    = Some (Stations.DbNumber q) →
  let read := App.database_read Stations.dbKeys_lastFrequency w in
  if decide (q == 0)%Q then read = Some w
  else ∃ w', read = Some w'
       ∧ Stations.getStationList (stations w')
         = Stations.getStationList (stations w)
       ∧ ((FMRadio.state_of (fmradio w) = FMRadio.SCANNING
           ∧ fmradio w' = fmradio w)
          ∨ (FMRadio.state_of (fmradio w') = FMRadio.PLAYING
             ∧ FMRadio.frequency (fmradio w') = Main.tune_frequency q))
       ∧ Stations.getLastFrequency (stations w') = Radio.getFrequency w'.
Proof.
  intros Hdb. cbv zeta. unfold App.database_read. rewrite Hdb.
  unfold StationsDb.queryCallback. case_decide as Hq; [done|].
  rewrite decide_False by done. rewrite decide_True by done.
  eexists. split; [reflexivity|]. split_and!.
  - unfold Stations.getStationList. by rewrite tune_stationList.
  - destruct (decide (FMRadio.state_of (fmradio w) = FMRadio.SCANNING))
      as [Hscan|Hstate].
    + left. split; [done|]. unfold Main.tune, Radio.start. simpl.
      rewrite Hscan. by rewrite decide_False by (by intros []).
    + right. by rewrite tune_device.
  - reflexivity.
Qed.

Lemma lastFrequency_read_witness :
  ∃ w', App.database_read Stations.dbKeys_lastFrequency saved_world = Some w'
    ∧ Stations.getStationList (stations w')
      = Stations.getStationList (stations saved_world)
    ∧ ((FMRadio.state_of (fmradio saved_world) = FMRadio.SCANNING
        ∧ fmradio w' = fmradio saved_world)
       ∨ (FMRadio.state_of (fmradio w') = FMRadio.PLAYING
          ∧ FMRadio.frequency (fmradio w') = Main.tune_frequency 95.5))
    ∧ Stations.getLastFrequency (stations w') = Radio.getFrequency w'.
Proof.
  apply (lastFrequency_read 95.5 saved_world). reflexivity.
Defined.

(** ** The neighbours of a frequency, in general *)

Lemma Js_index_last {A} (a : list A) :
  Js.index a (Z.of_nat (length a) - 1) = a !! (length a - 1)%nat.
Proof.
  destruct a as [|x a]; [done|].
  replace (Z.of_nat (length (x :: a)) - 1)%Z
    with (Z.of_nat (length (x :: a) - 1)) by (simpl; lia).
  apply Js_index_nat.
Qed.

(** The next preset, by place: after the preset at place [i] comes the one
    at place [i + 1], and the first one after the last. *)
Lemma nextStation_at (s : Stations.t) (i : nat) (st : Station.t) (f : Q) :
  ascending (Stations.stationList s) →
  Stations.stationList s !! i = Some st →
  (Station.frequency st == f)%Q →
  ∃ sj, Stations.stationList s !! (S i mod length (Stations.stationList s))
        = Some sj
        ∧ Stations.nextStation f s = Js.Normal (Station.frequency sj).
Proof.
  intros Hs%ascending_strictly Hi Hf.
  pose proof (lookup_lt_Some _ _ _ Hi) as Hin.
  unfold Stations.nextStation.
  destruct (decide (S i < length (Stations.stationList s))%nat) as [Hlt|Hge].
  - rewrite Nat.mod_small by done.
    destruct (lookup_lt_is_Some_2 _ _ Hlt) as [sj Hj].
    exists sj. split; [done|].
    assert (list_find (λ station, f < Station.frequency station)%Q
              (Stations.stationList s) = Some (S i, sj)) as ->; [|done].
    apply list_find_Some. split_and!; [done| |].
    + pose proof (Hs i (S i) st sj Hi Hj ltac:(lia)). lra.
    + intros k y Hk Hki.
      destruct (decide (k = i)) as [->|Hne]; [simplify_eq; lra|].
      assert (k < i)%nat as Hlt' by lia.
      pose proof (Hs k i y st Hk Hi Hlt'). lra.
  - assert (S i = length (Stations.stationList s)) as Hlast by lia.
    rewrite Hlast, Nat.Div0.mod_same.
    destruct (lookup_lt_is_Some_2 (Stations.stationList s) 0%nat)
      as [s0 H0]; [lia|].
    exists s0. split; [done|].
    assert (list_find (λ station, f < Station.frequency station)%Q
              (Stations.stationList s) = None) as ->.
    { apply list_find_None, Forall_forall.
      intros y [k Hk]%list_elem_of_lookup.
      destruct (decide (k = i)) as [->|Hne]; [simplify_eq; lra|].
      assert (k < i)%nat as Hlt'.
      { pose proof (lookup_lt_Some _ _ _ Hk). lia. }
      pose proof (Hs k i y st Hk Hi Hlt'). lra. }
    change 0%Z with (Z.of_nat 0). by rewrite Js_index_nat, H0.
Qed.

(** The previous preset, by place: before the preset at place [i] comes
    the one at place [i - 1], and the last one before the first. *)
Lemma prevStation_at (s : Stations.t) (i : nat) (st : Station.t) (f : Q) :
  ascending (Stations.stationList s) →
  Stations.stationList s !! i = Some st →
  (Station.frequency st == f)%Q →
  ∃ sp, Stations.stationList s
          !! ((i + length (Stations.stationList s) - 1)
              mod length (Stations.stationList s))
        = Some sp
        ∧ Stations.prevStation f s = Js.Normal (Station.frequency sp).
Proof.
  intros Hs%ascending_strictly Hi Hf.
  pose proof (lookup_lt_Some _ _ _ Hi) as Hin.
  unfold Stations.prevStation.
  set (n := length (Stations.stationList s)) in *.
  destruct i as [|i].
  - replace (0 + n - 1)%nat with (n - 1)%nat by lia.
    rewrite Nat.mod_small by lia.
    destruct (lookup_lt_is_Some_2 (Stations.stationList s) (n - 1)%nat)
      as [sl Hl]; [unfold n; lia|].
    exists sl. split; [done|].
    assert (list_find (λ station, Station.frequency station < f)%Q
              (reverse (Stations.stationList s)) = None) as ->.
    { apply list_find_None, Forall_forall.
      intros y Hy. rewrite elem_of_reverse in Hy.
      apply list_elem_of_lookup in Hy as [k Hk].
      destruct k as [|k]; [simplify_eq; lra|].
      assert (0 < S k)%nat as Hlt by lia.
      pose proof (Hs 0%nat (S k) st y Hi Hk Hlt). lra. }
    unfold n in *. by rewrite Js_index_last, Hl.
  - replace (S i + n - 1)%nat with (i + 1 * n)%nat by lia.
    rewrite Nat.Div0.mod_add, Nat.mod_small by lia.
    destruct (lookup_lt_is_Some_2 (Stations.stationList s) i)
      as [sp Hp]; [unfold n; lia|].
    exists sp. split; [done|].
    assert (list_find (λ station, Station.frequency station < f)%Q
              (reverse (Stations.stationList s)) = Some (n - S i, sp)%nat)
      as ->; [|done].
    apply list_find_Some. split_and!.
    + apply reverse_lookup_Some. fold n. split; [|lia].
      by replace (n - S (n - S i))%nat with i by lia.
    + assert (i < S i)%nat as Hlt by lia.
      pose proof (Hs i (S i) sp st Hp Hi Hlt). lra.
    + intros k y [Hk Hkn]%reverse_lookup_Some Hlt. fold n in Hk, Hkn.
      destruct (decide (n - S k = S i)%nat) as [Heq|Hne].
      * rewrite Heq in Hk. simplify_eq. lra.
      * assert (S i < n - S k)%nat as Hlt' by lia.
        pose proof (Hs (S i) (n - S k)%nat st y Hi Hk Hlt'). lra.
Qed.

(** X10.  On a collection that is not empty, [nextStation] and
    [prevStation] return for every frequency, and what they return is the
    frequency of a preset. *)
Theorem neighbours_of_nonempty (f : Q) (s : Stations.t) :
  Stations.stationList s ≠ [] →
  ∃ g h, Stations.nextStation f s = Js.Normal g
         ∧ Stations.prevStation f s = Js.Normal h
         ∧ is_preset g (Stations.stationList s)
         ∧ is_preset h (Stations.stationList s).
Proof.
  intros Hne.
  assert (∀ st, st ∈ Stations.stationList s →
                is_preset (Station.frequency st) (Stations.stationList s))
    as Hpre.
  { intros st Hin. apply Exists_exists. exists st. split; [done|reflexivity]. }
  assert (0 < length (Stations.stationList s))%nat as Hlen.
  { destruct (Stations.stationList s); [done|simpl; lia]. }
  assert (∃ g, Stations.nextStation f s = Js.Normal g
               ∧ is_preset g (Stations.stationList s)) as (g & Hg & Hgp).
  { unfold Stations.nextStation.
    destruct (list_find _ _) as [[j sj]|] eqn:Hfind.
    - apply list_find_Some in Hfind as (Hj%list_elem_of_lookup_2 & _).
      eauto.
    - destruct (lookup_lt_is_Some_2 (Stations.stationList s) 0%nat)
        as [s0 H0]; [done|].
      change 0%Z with (Z.of_nat 0). rewrite Js_index_nat, H0.
      apply list_elem_of_lookup_2 in H0. eauto. }
  assert (∃ h, Stations.prevStation f s = Js.Normal h
               ∧ is_preset h (Stations.stationList s)) as (h & Hh & Hhp).
  { unfold Stations.prevStation.
    destruct (list_find _ _) as [[j sj]|] eqn:Hfind.
    - apply list_find_Some in Hfind as (Hj%list_elem_of_lookup_2 & _).
      rewrite elem_of_reverse in Hj. eauto.
    - destruct (lookup_lt_is_Some_2 (Stations.stationList s)
                  (length (Stations.stationList s) - 1)%nat)
        as [sl Hl]; [lia|].
      rewrite Js_index_last, Hl.
      apply list_elem_of_lookup_2 in Hl. eauto. }
  eauto 10.
Qed.

Lemma neighbours_of_nonempty_witness :
  ∃ g h, Stations.nextStation 100.0 two_presets = Js.Normal g
         ∧ Stations.prevStation 100.0 two_presets = Js.Normal h
         ∧ is_preset g (Stations.stationList two_presets)
         ∧ is_preset h (Stations.stationList two_presets).
Proof. apply neighbours_of_nonempty. discriminate. Defined.

(** X11.  In a collection in order, the presets form a ring: from the
    frequency of the preset at place [i], [nextStation] returns the
    frequency of the preset at place [i + 1], counted around the end of
    the list, and [prevStation] the one at place [i - 1], counted around
    its start. *)
Theorem neighbours_by_place (s : Stations.t) (i : nat) (st : Station.t)
    (f : Q) :
  strictly_ascending (Stations.stationList s) →
  Stations.stationList s !! i = Some st →
  (Station.frequency st == f)%Q →
  let n := length (Stations.stationList s) in
  ∃ sj sp,
    Stations.stationList s !! ((i + 1) mod n) = Some sj
    ∧ Stations.nextStation f s = Js.Normal (Station.frequency sj)
    ∧ Stations.stationList s !! ((i + n - 1) mod n) = Some sp
    ∧ Stations.prevStation f s = Js.Normal (Station.frequency sp).
Proof.
  intros Hs%strictly_ascending_ascending Hi Hf. cbv zeta.
  destruct (nextStation_at s i st f Hs Hi Hf) as (sj & Hj & Hnext).
  destruct (prevStation_at s i st f Hs Hi Hf) as (sp & Hp & Hprev).
  exists sj, sp. by rewrite Nat.add_1_r.
Qed.

Lemma neighbours_by_place_witness :
  ∃ sj sp,
    Stations.stationList two_presets !! ((1 + 1) mod 2) = Some sj
    ∧ Stations.nextStation 95.5 two_presets
      = Js.Normal (Station.frequency sj)
    ∧ Stations.stationList two_presets !! ((1 + 2 - 1) mod 2) = Some sp
    ∧ Stations.prevStation 95.5 two_presets
      = Js.Normal (Station.frequency sp).
Proof.
  apply (neighbours_by_place two_presets 1 (Station.mk "Station 2" 95.5));
    [apply two_presets_ascending | reflexivity | reflexivity].
Defined.

(** X12.  In a collection in order, going to the previous preset from the
    frequency of a preset and then to the next one leads back to that
    frequency. *)
Theorem nextStation_prevStation (s : Stations.t) (f : Q) :
  strictly_ascending (Stations.stationList s) →
  is_preset f (Stations.stationList s) →
  ∃ g h, Stations.prevStation f s = Js.Normal g
         ∧ Stations.nextStation g s = Js.Normal h
         ∧ (h == f)%Q.
Proof.
  intros Hs%strictly_ascending_ascending
         (st & [i Hi]%list_elem_of_lookup & Hf)%Exists_exists.
  pose proof (lookup_lt_Some _ _ _ Hi) as Hin.
  destruct (prevStation_at s i st f Hs Hi Hf) as (sp & Hp & Hprev).
  destruct (nextStation_at s _ sp (Station.frequency sp) Hs Hp)
    as (sj & Hj & Hnext); [reflexivity|].
  exists (Station.frequency sp), (Station.frequency sj).
  split_and!; [done..|].
  assert (S ((i + length (Stations.stationList s) - 1)
             mod length (Stations.stationList s))
          mod length (Stations.stationList s) = i) as Hback.
  { destruct i as [|i].
    - replace (0 + length (Stations.stationList s) - 1)%nat
        with (length (Stations.stationList s) - 1)%nat by lia.
      rewrite (Nat.mod_small (_ - 1)) by lia.
      replace (S (length (Stations.stationList s) - 1))
        with (length (Stations.stationList s)) by lia.
      apply Nat.Div0.mod_same.
    - replace (S i + length (Stations.stationList s) - 1)%nat
        with (i + 1 * length (Stations.stationList s))%nat by lia.
      rewrite Nat.Div0.mod_add, (Nat.mod_small i) by lia.
      by apply Nat.mod_small. }
  rewrite Hback in Hj. by simplify_eq.
Qed.

Lemma nextStation_prevStation_witness :
  ∃ g h, Stations.prevStation 90.0 two_presets = Js.Normal g
         ∧ Stations.nextStation g two_presets = Js.Normal h
         ∧ (h == 90.0)%Q.
Proof.
  apply nextStation_prevStation; [apply two_presets_ascending|].
  apply is_preset_find. by eexists.
Defined.

Lemma nextStation_times_at (s : Stations.t) (i : nat) (st : Station.t)
    (f : Q) (k : nat) :
  ascending (Stations.stationList s) →
  Stations.stationList s !! i = Some st →
  (Station.frequency st == f)%Q →
  ∃ sk g,
    Stations.stationList s !! ((i + k) mod length (Stations.stationList s))
    = Some sk
    ∧ nextStation_times k f s = Js.Normal g
    ∧ (g == Station.frequency sk)%Q.
Proof.
  intros Hs Hi Hf. pose proof (lookup_lt_Some _ _ _ Hi) as Hin.
  induction k as [|k (sk & g & Hk & Hg & Hgk)].
  - exists st, f. rewrite Nat.add_0_r, Nat.mod_small by done.
    split_and!; [done..|]. by symmetry.
  - destruct (nextStation_at s _ sk g Hs Hk) as (sj & Hj & Hnext);
      [by symmetry|].
    exists sj, (Station.frequency sj). split_and!; [|simpl; by rewrite Hg|done].
    rewrite <- Hj. f_equal.
    replace (i + S k)%nat with (i + k + 1)%nat by lia.
    rewrite <- (Nat.Div0.add_mod_idemp_l (i + k) 1). f_equal. lia.
Qed.

(** X13.  In a collection in order of [n] presets, [nextStation] applied
    again and again from the frequency of the preset at place [i] visits
    the presets in turn, the one at place [i + k] (counted around the end)
    after [k] times, and is back at the frequency it started from after
    [n] times. *)
Theorem nextStation_goes_round (s : Stations.t) (i : nat)
    (st : Station.t) (f : Q) :
  strictly_ascending (Stations.stationList s) →
  Stations.stationList s !! i = Some st →
  (Station.frequency st == f)%Q →
  let n := length (Stations.stationList s) in
  (∀ k, ∃ sk g, Stations.stationList s !! ((i + k) mod n) = Some sk
                ∧ nextStation_times k f s = Js.Normal g
                ∧ (g == Station.frequency sk)%Q)
  ∧ ∃ g, nextStation_times n f s = Js.Normal g ∧ (g == f)%Q.
Proof.
  intros Hs%strictly_ascending_ascending Hi Hf. cbv zeta. split.
  - intros k. by apply (nextStation_times_at s i st).
  - destruct (nextStation_times_at s i st f
                (length (Stations.stationList s)) Hs Hi Hf)
      as (sk & g & Hk & Hg & Hgk).
    exists g. split; [done|].
    replace (i + length (Stations.stationList s))%nat
      with (i + 1 * length (Stations.stationList s))%nat in Hk by lia.
    rewrite Nat.Div0.mod_add, Nat.mod_small in Hk
      by (by eapply lookup_lt_Some).
    simplify_eq. lra.
Qed.

Lemma nextStation_goes_round_witness :
  (∀ k, ∃ sk g, Stations.stationList two_presets !! ((0 + k) mod 2) = Some sk
                ∧ nextStation_times k 90.0 two_presets = Js.Normal g
                ∧ (g == Station.frequency sk)%Q)
  ∧ ∃ g, nextStation_times 2 90.0 two_presets = Js.Normal g ∧ (g == 90.0)%Q.
Proof.
  apply (nextStation_goes_round two_presets 0 (Station.mk "Station 1" 90.0));
    [apply two_presets_ascending | reflexivity | reflexivity].
Defined.

(** X14.  In a collection in order that is not empty, [nextStation(f)] is
    the frequency of a preset: of the lowest preset above [f], or of the
    lowest preset of all when none is above [f]; [prevStation(f)] is the
    frequency of the highest preset below [f], or of the highest of all
    when none is below [f]. *)
Theorem neighbours_are_nearest (f : Q) (s : Stations.t) :
  strictly_ascending (Stations.stationList s) →
  Stations.stationList s ≠ [] →
  let l := Stations.stationList s in
  (∃ g, Stations.nextStation f s = Js.Normal g
        ∧ is_preset g l
        ∧ ((f < g ∧ ∀ st, st ∈ l → f < Station.frequency st →
                          g <= Station.frequency st)
           ∨ ((∀ st, st ∈ l → Station.frequency st <= f)
              ∧ ∀ st, st ∈ l → g <= Station.frequency st)))%Q
  ∧ (∃ h, Stations.prevStation f s = Js.Normal h
          ∧ is_preset h l
          ∧ ((h < f ∧ ∀ st, st ∈ l → Station.frequency st < f →
                            Station.frequency st <= h)
             ∨ ((∀ st, st ∈ l → f <= Station.frequency st)
                ∧ ∀ st, st ∈ l → Station.frequency st <= h)))%Q.
Proof.
  intros Hs Hne. cbv zeta.
  assert (0 < length (Stations.stationList s))%nat as Hlen.
  { destruct (Stations.stationList s); [done|simpl; lia]. }
  assert (∀ i st, Stations.stationList s !! i = Some st →
                  is_preset (Station.frequency st) (Stations.stationList s))
    as Hpre.
  { intros i st Hin%list_elem_of_lookup_2. apply Exists_exists.
    exists st. split; [done|reflexivity]. }
  assert (∀ i j a b, Stations.stationList s !! i = Some a →
                     Stations.stationList s !! j = Some b → (i ≤ j)%nat →
                     (Station.frequency a <= Station.frequency b)%Q) as Hle.
  { intros i j a b Hi Hj Hij. destruct (decide (i = j)) as [->|Hneq].
    - simplify_eq. apply Qle_refl.
    - apply Qlt_le_weak, (Hs i j); [done..|lia]. }
  split.
  - unfold Stations.nextStation.
    destruct (list_find _ _) as [[j sj]|] eqn:Hfind.
    + apply list_find_Some in Hfind as (Hj & Hgt & Hmin).
      exists (Station.frequency sj).
      split_and!; [done|by apply (Hpre j)|]. left. split; [done|].
      intros st [k Hk]%list_elem_of_lookup Hst.
      apply (Hle j k); [done..|].
      destruct (decide (j ≤ k)%nat); [done|].
      destruct (Hmin k st Hk); [lia|done].
    + apply list_find_None in Hfind. rewrite Forall_forall in Hfind.
      destruct (lookup_lt_is_Some_2 (Stations.stationList s) 0%nat)
        as [s0 H0]; [done|].
      change 0%Z with (Z.of_nat 0). rewrite Js_index_nat, H0.
      exists (Station.frequency s0).
      split_and!; [done|by apply (Hpre 0%nat)|]. right. split.
      * intros st Hst. apply Qnot_lt_le. by apply Hfind.
      * intros st [k Hk]%list_elem_of_lookup. apply (Hle 0%nat k); [done..|lia].
  - unfold Stations.prevStation.
    destruct (list_find _ _) as [[j sj]|] eqn:Hfind.
    + apply list_find_Some in Hfind as (Hj & Hlt & Hmax).
      apply reverse_lookup_Some in Hj as [Hj Hjn].
      exists (Station.frequency sj).
      split_and!; [done|by eapply Hpre|]. left. split; [done|].
      intros st [k Hk]%list_elem_of_lookup Hst.
      pose proof (lookup_lt_Some _ _ _ Hk) as Hkn.
      apply (Hle k (length (Stations.stationList s) - S j)%nat); [done..|].
      destruct (decide (k ≤ length (Stations.stationList s) - S j)%nat);
        [done|].
      destruct (Hmax (length (Stations.stationList s) - S k)%nat st);
        [|lia|done].
      apply reverse_lookup_Some. split; [|lia].
      by replace (length (Stations.stationList s)
                  - S (length (Stations.stationList s) - S k))%nat
        with k by lia.
    + apply list_find_None in Hfind. rewrite Forall_forall in Hfind.
      destruct (lookup_lt_is_Some_2 (Stations.stationList s)
                  (length (Stations.stationList s) - 1)%nat)
        as [sl Hl]; [lia|].
      rewrite Js_index_last, Hl.
      exists (Station.frequency sl).
      split_and!; [done|by eapply Hpre|]. right. split.
      * intros st Hst. apply Qnot_lt_le, Hfind. by apply elem_of_reverse.
      * intros st [k Hk]%list_elem_of_lookup.
        pose proof (lookup_lt_Some _ _ _ Hk) as Hkn.
        apply (Hle k (length (Stations.stationList s) - 1)%nat); [done..|lia].
Qed.

Lemma neighbours_are_nearest_witness :
  let l := Stations.stationList two_presets in
  (∃ g, Stations.nextStation 93.0 two_presets = Js.Normal g
        ∧ is_preset g l
        ∧ ((93.0 < g ∧ ∀ st, st ∈ l → 93.0 < Station.frequency st →
                             g <= Station.frequency st)
           ∨ ((∀ st, st ∈ l → Station.frequency st <= 93.0)
              ∧ ∀ st, st ∈ l → g <= Station.frequency st)))%Q
  ∧ (∃ h, Stations.prevStation 93.0 two_presets = Js.Normal h
          ∧ is_preset h l
          ∧ ((h < 93.0 ∧ ∀ st, st ∈ l → Station.frequency st < 93.0 →
                               Station.frequency st <= h)
             ∨ ((∀ st, st ∈ l → 93.0 <= Station.frequency st)
                ∧ ∀ st, st ∈ l → Station.frequency st <= h)))%Q.
Proof.
  apply neighbours_are_nearest; [apply two_presets_ascending | discriminate].
Defined.

(** ** Tuning by steps *)

Lemma Math_round_integer (m : Z) (x : Q) :
  (x == inject_Z m)%Q → Js.Math_round x = inject_Z m.
Proof.
  intros Hx. unfold Js.Math_round. f_equal.
  rewrite Hx. unfold Qfloor, Qplus, inject_Z. simpl.
  rewrite Z.mul_1_r. change (Z.pos (1 * 2)) with 2%Z.
  symmetry. apply Z.div_unique with (r := 1%Z); lia.
Qed.

(** What [getFrequency] returns is a number of tenths, and for a device at
    a number of tenths it is the frequency of the device. *)
Lemma getFrequency_tenths (w : world) :
  ∃ m : Z, Radio.getFrequency w = (inject_Z m / 10)%Q.
Proof. unfold Radio.getFrequency, Js.Math_round. eauto. Qed.

Lemma getFrequency_of_tenths (w : world) (m : Z) :
  (FMRadio.frequency (fmradio w) == inject_Z m / 10)%Q →
  Radio.getFrequency w = (inject_Z m / 10)%Q.
Proof.
  intros Hf. unfold Radio.getFrequency.
  rewrite (Math_round_integer m); [done|]. rewrite Hf. field.
Qed.

Lemma tune_frequency_inside (f : Q) :
  (Radio.exports_minFrequency <= f)%Q →
  (f <= Radio.exports_maxFrequency)%Q →
  Main.tune_frequency f = f.
Proof.
  intros Hlo Hhi. unfold Main.tune_frequency.
  rewrite decide_False by (by apply Qle_not_lt).
  by rewrite decide_False by (by apply Qle_not_lt).
Qed.

Lemma tune_playing (f : Q) (w : world) :
  FMRadio.state_of (fmradio w) ≠ FMRadio.SCANNING →
  FMRadio.state_of (fmradio (Main.tune f w)) = FMRadio.PLAYING
  ∧ FMRadio.frequency (fmradio (Main.tune f w)) = Main.tune_frequency f.
Proof. intros Hstate. by rewrite tune_device. Qed.

Lemma tuneUp_inside (w : world) :
  FMRadio.state_of (fmradio w) ≠ FMRadio.SCANNING →
  (Radio.exports_minFrequency <= Radio.getFrequency w)%Q →
  (Radio.getFrequency w + 0.1 <= Radio.exports_maxFrequency)%Q →
  FMRadio.state_of (fmradio (Main.tuneUp w)) = FMRadio.PLAYING
  ∧ FMRadio.frequency (fmradio (Main.tuneUp w))
    = (Radio.getFrequency w + 0.1)%Q
  ∧ (Radio.getFrequency (Main.tuneUp w) == Radio.getFrequency w + 0.1)%Q.
Proof.
  intros Hstate Hlo Hhi. unfold Main.tuneUp.
  destruct (tune_playing (Radio.getFrequency w + 0.1) w Hstate)
    as [Hplay Hfreq].
  rewrite tune_frequency_inside in Hfreq by lra.
  split_and!; [done..|].
  destruct (getFrequency_tenths w) as [m Hm].
  rewrite (getFrequency_of_tenths _ (m + 1)).
  - rewrite Hm, inject_Z_plus. field.
  - rewrite Hfreq, Hm, inject_Z_plus. field.
Qed.

Lemma tuneDown_inside (w : world) :
  FMRadio.state_of (fmradio w) ≠ FMRadio.SCANNING →
  (Radio.exports_minFrequency <= Radio.getFrequency w - 0.1)%Q →
  (Radio.getFrequency w <= Radio.exports_maxFrequency)%Q →
  FMRadio.state_of (fmradio (Main.tuneDown w)) = FMRadio.PLAYING
  ∧ FMRadio.frequency (fmradio (Main.tuneDown w))
    = (Radio.getFrequency w - 0.1)%Q
  ∧ (Radio.getFrequency (Main.tuneDown w) == Radio.getFrequency w - 0.1)%Q.
Proof.
  intros Hstate Hlo Hhi. unfold Main.tuneDown.
  destruct (tune_playing (Radio.getFrequency w - 0.1) w Hstate)
    as [Hplay Hfreq].
  rewrite tune_frequency_inside in Hfreq by lra.
  split_and!; [done..|].
  destruct (getFrequency_tenths w) as [m Hm].
  rewrite (getFrequency_of_tenths _ (m - 1)).
  - rewrite Hm. unfold Z.sub. rewrite inject_Z_plus, inject_Z_opp. field.
  - rewrite Hfreq, Hm. unfold Z.sub.
    rewrite inject_Z_plus, inject_Z_opp. field.
Qed.

(** X15.  Outside a scan and inside the band, after a step up followed by
    a step down, and after a step down followed by a step up, the radio
    module reports the frequency that it reported before. *)
Theorem tune_step_there_and_back (w : world) :
  FMRadio.state_of (fmradio w) ≠ FMRadio.SCANNING →
  (Radio.exports_minFrequency <= Radio.getFrequency w)%Q →
  (Radio.getFrequency w <= Radio.exports_maxFrequency)%Q →
  ((Radio.getFrequency w + 0.1 <= Radio.exports_maxFrequency)%Q →
   (Radio.getFrequency (Main.tuneDown (Main.tuneUp w))
    == Radio.getFrequency w)%Q)
  ∧ ((Radio.exports_minFrequency <= Radio.getFrequency w - 0.1)%Q →
     (Radio.getFrequency (Main.tuneUp (Main.tuneDown w))
      == Radio.getFrequency w)%Q).
Proof.
  intros Hstate Hlo Hhi. split.
  - intros Hup.
    destruct (tuneUp_inside w Hstate Hlo Hup) as (Hplay & _ & Hr).
    destruct (tuneDown_inside (Main.tuneUp w)) as (_ & _ & Hr');
      [by rewrite Hplay|lra|lra|].
    rewrite Hr'. lra.
  - intros Hdown.
    destruct (tuneDown_inside w Hstate Hdown Hhi) as (Hplay & _ & Hr).
    destruct (tuneUp_inside (Main.tuneDown w)) as (_ & _ & Hr');
      [by rewrite Hplay|lra|lra|].
    rewrite Hr'. lra.
Qed.

Lemma tune_step_there_and_back_witness :
  (Radio.getFrequency (Main.tuneDown (Main.tuneUp playing_world))
   == Radio.getFrequency playing_world)%Q
  ∧ (Radio.getFrequency (Main.tuneUp (Main.tuneDown playing_world))
     == Radio.getFrequency playing_world)%Q.
Proof.
  destruct (tune_step_there_and_back playing_world) as [Hup Hdown];
    [discriminate..|].
  split; [apply Hup | apply Hdown]; discriminate.
Defined.

(** X16.  Outside a scan, a step up from the top of the band goes to its
    bottom, and a step down from the bottom goes to its top. *)
Theorem tune_step_wraps :
  (∀ w : world,
     FMRadio.state_of (fmradio w) ≠ FMRadio.SCANNING →
     (Radio.exports_maxFrequency < Radio.getFrequency w + 0.1)%Q →
     FMRadio.state_of (fmradio (Main.tuneUp w)) = FMRadio.PLAYING
     ∧ FMRadio.frequency (fmradio (Main.tuneUp w))
       = Radio.exports_minFrequency)
  ∧ (∀ w : world,
       FMRadio.state_of (fmradio w) ≠ FMRadio.SCANNING →
       (Radio.getFrequency w - 0.1 < Radio.exports_minFrequency)%Q →
       FMRadio.state_of (fmradio (Main.tuneDown w)) = FMRadio.PLAYING
       ∧ FMRadio.frequency (fmradio (Main.tuneDown w))
         = Radio.exports_maxFrequency).
Proof.
  split; intros w Hstate Hout.
  - unfold Main.tuneUp.
    destruct (tune_playing (Radio.getFrequency w + 0.1) w Hstate)
      as [-> ->].
    split; [done|]. unfold Main.tune_frequency.
    rewrite decide_False.
    + by rewrite decide_True.
    + assert (Radio.exports_minFrequency == 87.5)%Q by reflexivity.
      assert (Radio.exports_maxFrequency == 108)%Q by reflexivity. lra.
  - unfold Main.tuneDown.
    destruct (tune_playing (Radio.getFrequency w - 0.1) w Hstate)
      as [-> ->].
    split; [done|]. unfold Main.tune_frequency. by rewrite decide_True.
Qed.

Lemma tune_step_wraps_witness :
  (FMRadio.state_of (fmradio (Main.tuneUp (playing_at 108.0)))
   = FMRadio.PLAYING
   ∧ FMRadio.frequency (fmradio (Main.tuneUp (playing_at 108.0)))
     = Radio.exports_minFrequency)
  ∧ (FMRadio.state_of (fmradio (Main.tuneDown (playing_at 87.5)))
     = FMRadio.PLAYING
     ∧ FMRadio.frequency (fmradio (Main.tuneDown (playing_at 87.5)))
       = Radio.exports_maxFrequency).
Proof.
  split.
  - apply (proj1 tune_step_wraps); [discriminate | reflexivity].
  - apply (proj2 tune_step_wraps); [discriminate | reflexivity].
Defined.

(** ** Seeking *)

Lemma Radio_seek_view (cb : FMRadio.callback) (w : world) :
  view (Radio.seekUp cb w) = view w ∧ view (Radio.seekDown cb w) = view w.
Proof. unfold Radio.seekUp, Radio.seekDown. by repeat case_decide. Qed.

(** X17.  The seek buttons are served one press at a time: once a seek
    button has been pressed, further presses of either seek button change
    nothing until the station is refreshed, which unblocks them; so any
    presses in a row give the device one more seek call at most. *)
Theorem seek_presses_blocked (w : world) :
  Main.seekUp (Main.seekUp w) = Main.seekUp w
  ∧ Main.seekDown (Main.seekUp w) = Main.seekUp w
  ∧ Main.seekUp (Main.seekDown w) = Main.seekDown w
  ∧ Main.seekDown (Main.seekDown w) = Main.seekDown w
  ∧ (length (seek_calls (Main.seekUp w)) ≤ S (length (seek_calls w)))%nat
  ∧ (length (seek_calls (Main.seekDown w)) ≤ S (length (seek_calls w)))%nat
  ∧ buttonBlock (view (Main.refreshStation w)) = false.
Proof.
  assert (buttonBlock (view (Main.seekUp w)) = true) as Hup.
  { unfold Main.seekUp. destruct (buttonBlock (view w)) eqn:Hb; [done|].
    by rewrite (proj1 (Radio_seek_view _ _)). }
  assert (buttonBlock (view (Main.seekDown w)) = true) as Hdown.
  { unfold Main.seekDown. destruct (buttonBlock (view w)) eqn:Hb; [done|].
    by rewrite (proj2 (Radio_seek_view _ _)). }
  split_and!.
  - unfold Main.seekUp at 1. by rewrite Hup.
  - unfold Main.seekDown at 1. by rewrite Hup.
  - unfold Main.seekUp at 1. by rewrite Hdown.
  - unfold Main.seekDown at 1. by rewrite Hdown.
  - unfold Main.seekUp, Radio.seekUp, seek_calls.
    destruct (buttonBlock (view w)); [lia|]. simpl.
    case_decide; simpl; [|lia].
    rewrite filter_app, length_app. simpl. lia.
  - unfold Main.seekDown, Radio.seekDown, seek_calls.
    destruct (buttonBlock (view w)); [lia|]. simpl.
    case_decide; simpl; [|lia].
    rewrite filter_app, length_app. simpl. lia.
  - reflexivity.
Qed.

(** X18.  A press of a seek button while the radio is not playing asks the
    device for nothing, yet it blocks the seek buttons: the next press is
    ignored even when the radio plays again in between, until the station
    is refreshed. *)
Theorem seek_press_when_not_playing (w : world) :
  FMRadio.state_of (fmradio w) ≠ FMRadio.PLAYING →
  buttonBlock (view w) = false →
  fmradio (Main.seekUp w) = fmradio w
  ∧ buttonBlock (view (Main.seekUp w)) = true
  ∧ ∀ f, Main.seekUp (Radio.start f (Main.seekUp w))
         = Radio.start f (Main.seekUp w).
Proof.
  intros Hstate Hblock.
  assert (Main.seekUp w
          = with_view (λ v, mk_main_vars true (frequencyLabel v) (nameLabel v))
              w) as ->.
  { unfold Main.seekUp, Radio.seekUp. rewrite Hblock. simpl.
    by rewrite decide_False. }
  split_and!; [done..|]. intros f.
  unfold Main.seekUp at 1.
  by destruct (start_fields f (with_view
       (λ v, mk_main_vars true (frequencyLabel v) (nameLabel v)) w))
    as (_ & _ & _ & ->).
Qed.

Lemma seek_press_when_not_playing_witness :
  fmradio (Main.seekUp idle_world) = fmradio idle_world
  ∧ buttonBlock (view (Main.seekUp idle_world)) = true
  ∧ ∀ f, Main.seekUp (Radio.start f (Main.seekUp idle_world))
         = Radio.start f (Main.seekUp idle_world).
Proof. apply seek_press_when_not_playing; [discriminate | reflexivity]. Defined.

(** ** A scan, from its start to its end *)

Lemma scan_found_all_fields (fs : list Q) (w : world) :
  stationCount (radio (scan_found_all fs w))
  = (stationCount (radio w) + length fs)%nat
  ∧ popup (scan_found_all fs w)
    = popup w
      ++ imap (λ i f, Popup.UpdateProgress
                        (Radio.progress_of f (radio w))
                        (stationCount (radio w) + S i)) fs
  ∧ fmradio (scan_found_all fs w) = fmradio w
  ∧ stations (scan_found_all fs w) = stations w
  ∧ frequencyBeforeScan (radio (scan_found_all fs w))
    = frequencyBeforeScan (radio w).
Proof.
  revert w. induction fs as [|f fs IH]; intros w.
  - unfold scan_found_all. simpl. rewrite Nat.add_0_r, app_nil_r. done.
  - change (scan_found_all (f :: fs) w)
      with (scan_found_all fs (App.scan_found f w)).
    destruct (IH (App.scan_found f w)) as (-> & -> & -> & -> & ->).
    split_and!; [simpl; lia| |done..].
    simpl. unfold Popup.updateProgress. rewrite <- app_assoc.
    f_equal. simpl. f_equal.
    apply imap_ext. intros i x _. simpl. f_equal. lia.
Qed.

(** X19.  From [scanStart] on, the count of the stations found is the
    number of frequencies that the device has reported: after [k] reports
    the count is [k], and the popup has been told the counts 1 to [k], in
    this order, each with the progress of its frequency; the device keeps
    scanning, and the collection and the frequency recorded before the scan
    are not touched. *)
Theorem scan_counts_found (fs : list Q) (w : world) :
  let w0 := Radio.scanStart w in
  let w' := scan_found_all fs w0 in
  stationCount (radio w') = length fs
  ∧ popup w'
    = popup w ++ imap (λ i f, Popup.UpdateProgress
                                (Radio.progress_of f (radio w0)) (S i)) fs
  ∧ FMRadio.state_of (fmradio w') = FMRadio.SCANNING
  ∧ stations w' = stations w
  ∧ frequencyBeforeScan (radio w') = Radio.getFrequency w.
Proof.
  cbv zeta.
  destruct (scan_found_all_fields fs (Radio.scanStart w))
    as (Hc & Hp & Hd & Hs & Hb).
  destruct (scanStart_records w) as (Hscan & Hbefore & Hzero).
  rewrite Hc, Hp, Hd, Hs, Hb, Hzero, Hscan, Hbefore.
  split_and!; [done| |done| |done].
  - f_equal. unfold Radio.scanStart. by case_decide.
  - unfold Radio.scanStart. by case_decide.
Qed.

Lemma save_undefined_keeps name frequency (s : Stations.t) (st : Station.t) :
  st ∈ Stations.stationList s →
  st ∈ Stations.stationList (Stations.save name frequency Js.Undefined s).
Proof.
  intros Hin. unfold Stations.save.
  destruct (list_find _ _) as [[i y]|]; simpl; [done|].
  rewrite Js_sort_Permutation. set_solver.
Qed.

Lemma save_is_preset name frequency overwrite (s : Stations.t) :
  is_preset frequency
    (Stations.stationList (Stations.save name frequency overwrite s)).
Proof. apply is_preset_find, save_found_again. Qed.

Lemma save_found_fields (fs : list Q) (i : nat) (w : world) :
  fmradio (Radio.save_found i fs w) = fmradio w
  ∧ radio (Radio.save_found i fs w) = radio w
  ∧ popup (Radio.save_found i fs w) = popup w
  ∧ view (Radio.save_found i fs w) = view w.
Proof.
  revert i w. induction fs as [|f fs IH]; intros i w; simpl; [done|].
  by destruct (IH (S i) (with_stations
       (Stations.save ("Station " +:+ pretty (i + 1)) f Js.Undefined) w))
    as (-> & -> & -> & ->).
Qed.

Lemma save_found_stations (fs : list Q) (i : nat) (w : world) :
  ascending (Stations.stationList (stations w)) →
  ascending (Stations.stationList (stations (Radio.save_found i fs w)))
  ∧ (∀ st, st ∈ Stations.stationList (stations w) →
           st ∈ Stations.stationList (stations (Radio.save_found i fs w)))
  ∧ (∀ f, f ∈ fs →
          is_preset f
            (Stations.stationList (stations (Radio.save_found i fs w)))).
Proof.
  revert i w. induction fs as [|f fs IH]; intros i w Hs; simpl.
  - split_and!; [done..|]. intros f Hf. by apply elem_of_nil in Hf.
  - set (w1 := with_stations
                 (Stations.save ("Station " +:+ pretty (i + 1)) f
                                Js.Undefined) w).
    destruct (IH (S i) w1) as (Hasc & Hkeep & Hnew).
    { by apply save_ascending. }
    split_and!; [done| |].
    + intros st Hst. apply Hkeep. by apply save_undefined_keeps.
    + intros g [->|Hg]%elem_of_cons; [|by apply Hnew].
      pose proof (save_is_preset ("Station " +:+ pretty (i + 1)) f
                    Js.Undefined (stations w)) as Hpre.
      apply Exists_exists in Hpre as (st & Hst & Hf).
      apply Exists_exists. exists st. split; [by apply Hkeep | done].
Qed.

(** X20.  At the end of a scan that found at least one frequency, with the
    collection in order: every frequency found is a preset afterwards, the
    presets there were are all kept with their names, the collection is
    still in order, and the radio plays the first frequency found, wrapped
    into the bounds. *)
Theorem scan_finished_adds_presets (f0 : Q) (fs : list Q) (w : world) :
  strictly_ascending (Stations.stationList (stations w)) →
  ∃ w', App.scan_finished (f0 :: fs) w = Some w'
    ∧ strictly_ascending (Stations.getStationList (stations w'))
    ∧ (∀ f, f ∈ f0 :: fs →
            is_preset f (Stations.getStationList (stations w')))
    ∧ (∀ st, st ∈ Stations.getStationList (stations w) →
             st ∈ Stations.getStationList (stations w')
             ∧ Stations.getStationName (Station.frequency st) (stations w')
               = Station.name st)
    ∧ FMRadio.state_of (fmradio w') = FMRadio.PLAYING
    ∧ FMRadio.frequency (fmradio w') = Main.tune_frequency f0
    ∧ stationCount (radio w') = S (length fs).
Proof.
  intros Hs%strictly_ascending_ascending.
  unfold App.scan_finished, Radio.onFinished.
  set (w1 := with_popup _ (with_radio _ (with_fmradio _ w))).
  assert (ascending (Stations.stationList (stations w1))) as Hs1 by done.
  destruct (save_found_stations (f0 :: fs) 0 w1 Hs1)
    as (Hasc & Hkeep & Hnew).
  destruct (save_found_fields (f0 :: fs) 0 w1) as (Hd & Hr & Hp & Hv).
  set (w2 := Radio.save_found 0 (f0 :: fs) w1) in *.
  exists (Main.tune f0 w2). split; [done|].
  assert (FMRadio.state_of (fmradio w2) ≠ FMRadio.SCANNING) as Hstate.
  { by rewrite Hd. }
  unfold Stations.getStationList. rewrite tune_stationList.
  destruct (tune_playing f0 w2 Hstate) as [Hplay Hfreq].
  split_and!; [by apply ascending_strictly|done| |done|done|].
  - intros st Hst. split; [by apply Hkeep|].
    assert (∀ g, Stations.getStationName g (stations (Main.tune f0 w2))
                 = Stations.getStationName g (stations w2)) as ->.
    { intros g. unfold Stations.getStationName. by rewrite tune_stationList. }
    apply getStationName_elem; [done|by apply Hkeep|reflexivity].
  - unfold Main.tune. simpl.
    destruct (start_fields (Main.tune_frequency f0) w2) as (-> & _).
    by rewrite Hr.
Qed.

Lemma scan_finished_adds_presets_witness :
  ∃ w', App.scan_finished [95.5; 101.2]%Q scanning_over_presets = Some w'
    ∧ strictly_ascending (Stations.getStationList (stations w'))
    ∧ (∀ f, f ∈ [95.5; 101.2]%Q →
            is_preset f (Stations.getStationList (stations w')))
    ∧ (∀ st, st ∈ Stations.getStationList (stations scanning_over_presets) →
             st ∈ Stations.getStationList (stations w')
             ∧ Stations.getStationName (Station.frequency st) (stations w')
               = Station.name st)
    ∧ FMRadio.state_of (fmradio w') = FMRadio.PLAYING
    ∧ FMRadio.frequency (fmradio w') = Main.tune_frequency 95.5
    ∧ stationCount (radio w') = 2%nat.
Proof.
  apply (scan_finished_adds_presets 95.5 [101.2]%Q scanning_over_presets).
  apply two_presets_ascending.
Defined.

(** ** The name on the main page *)

Lemma getStationName_Qeq (f g : Q) (s : Stations.t) :
  (f == g)%Q → Stations.getStationName f s = Stations.getStationName g s.
Proof.
  intros Hfg. unfold Stations.getStationName.
  rewrite (list_find_ext _ (λ station, Station.frequency station == g)%Q);
    [done|].
  intros st. split; intros Hst; lra.
Qed.

Lemma getStationName_setLastFrequency (g f : Q) (s : Stations.t) :
  Stations.getStationName g (Stations.setLastFrequency f s)
  = Stations.getStationName g s.
Proof. done. Qed.

(** X21.  When the user names the station that is playing, the name is on
    the main page at once and is the name found for the frequency that the
    radio reports, whether that frequency was a preset before or not; the
    radio itself is not touched. *)
Theorem saveStationName_shows_name (stationName : string) (w : world) :
  let w' := Main.saveStationName stationName w in
  nameLabel (view w') = stationName
  ∧ Stations.getStationName (Radio.getFrequency w') (stations w')
    = stationName
  ∧ is_preset (Radio.getFrequency w)
      (Stations.getStationList (stations w'))
  ∧ fmradio w' = fmradio w.
Proof.
  cbv zeta. unfold Main.saveStationName.
  set (r := Radio.getFrequency w).
  set (w1 := with_stations _ w).
  assert (Radio.getFrequency w1 = r) as Hr by done.
  assert (Stations.getStationName r (stations w1) = stationName) as Hname.
  { unfold w1. simpl. rewrite save_names_frequency. simpl.
    by case_decide. }
  destruct (refreshStation_fields w1) as (Hd & _ & _ & Hl & _ & Hv).
  split_and!.
  - rewrite Hv, Hr. done.
  - unfold Radio.getFrequency. rewrite Hd. fold (Radio.getFrequency w1).
    rewrite Hr. unfold Main.refreshStation. simpl.
    rewrite getStationName_setLastFrequency. exact Hname.
  - unfold Stations.getStationList. rewrite Hl. apply save_is_preset.
  - by rewrite Hd.
Qed.

Lemma e_fire_refreshStationButtons (w : world) :
  Main.e_fire "views.stationList.refreshStationButtons" None w = Some w.
Proof. reflexivity. Qed.

Lemma e_fire_refreshStation (w : world) :
  Main.e_fire "views.stationList.refreshStation" None w
  = Some (Main.refreshStation w).
Proof. reflexivity. Qed.

Lemma setupRemoveButton_same (w : world) :
  StationList.setupRemoveButton Main.e_fire w = Some w.
Proof.
  unfold StationList.setupRemoveButton. case_decide; [|done].
  apply e_fire_refreshStationButtons.
Qed.

(** X22.  The page of the saved stations and the main page: when the preset
    renamed on the list has the frequency that the radio reports, the main
    page shows the new name; when that preset is removed (the collection
    being in order), the main page shows the marker UNNAMED and the
    frequency is a preset no more. *)
Theorem list_page_changes_main_label (stationEditFreq : Q) (w : world) :
  strictly_ascending (Stations.stationList (stations w)) →
  (stationEditFreq == Radio.getFrequency w)%Q →
  (∀ name, ∃ w',
     StationList.updateName Main.e_fire stationEditFreq name w = Some w'
     ∧ nameLabel (view w') = name)
  ∧ (∃ w', StationList.remove Main.e_fire stationEditFreq w = Some w'
           ∧ nameLabel (view w') = "UNNAMED"
           ∧ ¬ is_preset stationEditFreq
                 (Stations.getStationList (stations w'))).
Proof.
  intros Hs%strictly_ascending_ascending Hf. split.
  - intros name. unfold StationList.updateName.
    rewrite e_fire_refreshStation. eexists. split; [reflexivity|].
    simpl. fold (Radio.getFrequency w).
    rewrite <- (getStationName_Qeq stationEditFreq) by done.
    rewrite save_names_frequency. simpl. by case_decide.
  - unfold StationList.remove.
    rewrite setupRemoveButton_same, e_fire_refreshStation.
    eexists. split; [reflexivity|].
    assert (¬ is_preset stationEditFreq
              (Stations.stationList
                 (Stations.remove stationEditFreq (stations w)))) as Hgone.
    { intros (st & Hin & Hst)%Exists_exists.
      apply elem_of_remove in Hin as [_ Hne]; done. }
    split; [|done].
    simpl. fold (Radio.getFrequency w).
    rewrite <- (getStationName_Qeq stationEditFreq) by done.
    by apply getStationName_absent.
Qed.

Lemma list_page_changes_main_label_witness :
  (∀ name, ∃ w',
     StationList.updateName Main.e_fire 95.5 name playing_preset = Some w'
     ∧ nameLabel (view w') = name)
  ∧ (∃ w', StationList.remove Main.e_fire 95.5 playing_preset = Some w'
           ∧ nameLabel (view w') = "UNNAMED"
           ∧ ¬ is_preset 95.5 (Stations.getStationList (stations w'))).
Proof.
  apply list_page_changes_main_label;
    [apply two_presets_ascending | reflexivity].
Defined.

Lemma tune_to_tenth (f : Q) (m : Z) (w : world) :
  FMRadio.state_of (fmradio w) ≠ FMRadio.SCANNING →
  (f == inject_Z m / 10)%Q →
  (Radio.exports_minFrequency <= f <= Radio.exports_maxFrequency)%Q →
  fmradio (Main.tune f w) = FMRadio.start f (fmradio w)
  ∧ Radio.getFrequency (Main.tune f w) = (inject_Z m / 10)%Q
  ∧ view (Main.tune f w)
    = mk_main_vars false (inject_Z m / 10)%Q
        (Stations.getStationName f (stations w)).
Proof.
  intros Hstate Hm [Hlo Hhi].
  assert (fmradio (Main.tune f w) = FMRadio.start f (fmradio w)) as Hd.
  { rewrite tune_device by done. by rewrite tune_frequency_inside. }
  assert (Radio.getFrequency (Main.tune f w) = (inject_Z m / 10)%Q) as Hr.
  { apply getFrequency_of_tenths. by rewrite Hd. }
  split_and!; [done..|].
  unfold Main.tune.
  destruct (refreshStation_fields (Radio.start (Main.tune_frequency f) w))
    as (Hd' & _ & _ & _ & _ & ->).
  assert (Radio.getFrequency (Radio.start (Main.tune_frequency f) w)
          = (inject_Z m / 10)%Q) as ->.
  { unfold Radio.getFrequency in *. unfold Main.tune in Hr.
    by rewrite Hd' in Hr. }
  destruct (start_fields (Main.tune_frequency f) w) as (_ & -> & _).
  f_equal. apply getStationName_Qeq. by symmetry.
Qed.

(** X23.  Tuning to a preset shows its name: outside a scan, for a preset
    inside the band whose frequency is a number of tenths, in a collection
    in order, [tune] starts the radio at the frequency of the preset and the
    main page shows the name of the preset. *)
Theorem tune_to_preset_shows_name (st : Station.t) (m : Z) (w : world) :
  strictly_ascending (Stations.stationList (stations w)) →
  st ∈ Stations.stationList (stations w) →
  FMRadio.state_of (fmradio w) ≠ FMRadio.SCANNING →
  (Station.frequency st == inject_Z m / 10)%Q →
  (Radio.exports_minFrequency <= Station.frequency st
   <= Radio.exports_maxFrequency)%Q →
  let w' := Main.tune (Station.frequency st) w in
  FMRadio.state_of (fmradio w') = FMRadio.PLAYING
  ∧ FMRadio.frequency (fmradio w') = Station.frequency st
  ∧ nameLabel (view w') = Station.name st
  ∧ (frequencyLabel (view w') == Station.frequency st)%Q.
Proof.
  intros Hs%strictly_ascending_ascending Hin Hstate Hm Hband. cbv zeta.
  destruct (tune_to_tenth _ m w Hstate Hm Hband) as (-> & _ & ->).
  split_and!; [done..| |simpl; by symmetry].
  simpl. by apply getStationName_elem.
Qed.

Lemma tune_to_preset_shows_name_witness :
  let w' := Main.tune 90.0 playing_preset in
  FMRadio.state_of (fmradio w') = FMRadio.PLAYING
  ∧ FMRadio.frequency (fmradio w') = 90.0%Q
  ∧ nameLabel (view w') = "Station 1"
  ∧ (frequencyLabel (view w') == 90.0)%Q.
Proof.
  apply (tune_to_preset_shows_name (Station.mk "Station 1" 90.0) 900
           playing_preset).
  - apply two_presets_ascending.
  - set_solver.
  - discriminate.
  - reflexivity.
  - split; discriminate.
Defined.

(** X24.  The buttons of the next and the previous station: outside a scan,
    in a collection in order whose presets are all inside the band at a
    number of tenths, with the radio at the preset at place [i], a press
    tunes to the preset at place [i + 1] (for the previous station
    [i - 1]), counted around the ends, and the main page shows its name. *)
Theorem station_buttons_go_to_neighbours (i : nat) (st : Station.t)
    (w : world) :
  strictly_ascending (Stations.stationList (stations w)) →
  Forall tunable (Stations.stationList (stations w)) →
  FMRadio.state_of (fmradio w) ≠ FMRadio.SCANNING →
  Stations.stationList (stations w) !! i = Some st →
  (Station.frequency st == Radio.getFrequency w)%Q →
  let l := Stations.stationList (stations w) in
  (∃ sj w', l !! ((i + 1) mod length l) = Some sj
            ∧ Main.nextStation w = Js.Normal w'
            ∧ FMRadio.frequency (fmradio w') = Station.frequency sj
            ∧ nameLabel (view w') = Station.name sj)
  ∧ (∃ sp w', l !! ((i + length l - 1) mod length l) = Some sp
              ∧ Main.prevStation w = Js.Normal w'
              ∧ FMRadio.frequency (fmradio w') = Station.frequency sp
              ∧ nameLabel (view w') = Station.name sp).
Proof.
  intros Hs%strictly_ascending_ascending Hall Hstate Hi Hf. cbv zeta.
  rewrite Forall_forall in Hall.
  assert (∀ sj, sj ∈ Stations.stationList (stations w) →
            ¬ (Station.frequency sj == 0)%Q
            ∧ FMRadio.frequency
                (fmradio (Main.tune (Station.frequency sj) w))
              = Station.frequency sj
            ∧ nameLabel (view (Main.tune (Station.frequency sj) w))
              = Station.name sj) as Htune.
  { intros sj Hin. destruct (Hall sj Hin) as [Hband [m Hm]].
    destruct (tune_to_tenth _ m w Hstate Hm Hband) as (-> & _ & ->).
    split_and!; [|done|simpl; by apply getStationName_elem].
    assert (Radio.exports_minFrequency == 87.5)%Q by reflexivity. lra. }
  split.
  - destruct (nextStation_at _ i st _ Hs Hi Hf) as (sj & Hj & Hnext).
    destruct (Htune sj) as (Hnz & Hfreq & Hname);
      [by eapply list_elem_of_lookup_2|].
    exists sj, (Main.tune (Station.frequency sj) w).
    rewrite Nat.add_1_r. split_and!; [done| |done..].
    unfold Main.nextStation. rewrite Hnext. by rewrite decide_False.
  - destruct (prevStation_at _ i st _ Hs Hi Hf) as (sp & Hp & Hprev).
    destruct (Htune sp) as (Hnz & Hfreq & Hname);
      [by eapply list_elem_of_lookup_2|].
    exists sp, (Main.tune (Station.frequency sp) w).
    split_and!; [done| |done..].
    unfold Main.prevStation. rewrite Hprev. by rewrite decide_False.
Qed.

Lemma two_presets_tunable : Forall tunable (Stations.stationList two_presets).
Proof.
  repeat constructor; try discriminate.
  - by exists 900%Z.
  - by exists 955%Z.
Qed.

Lemma station_buttons_go_to_neighbours_witness :
  let l := Stations.stationList (stations playing_preset) in
  (∃ sj w', l !! ((1 + 1) mod length l) = Some sj
            ∧ Main.nextStation playing_preset = Js.Normal w'
            ∧ FMRadio.frequency (fmradio w') = Station.frequency sj
            ∧ nameLabel (view w') = Station.name sj)
  ∧ (∃ sp w', l !! ((1 + length l - 1) mod length l) = Some sp
              ∧ Main.prevStation playing_preset = Js.Normal w'
              ∧ FMRadio.frequency (fmradio w') = Station.frequency sp
              ∧ nameLabel (view w') = Station.name sp).
Proof.
  apply (station_buttons_go_to_neighbours 1
           (Station.mk "Station 2" 95.5) playing_preset).
  - apply two_presets_ascending.
  - apply two_presets_tunable.
  - discriminate.
  - reflexivity.
  - reflexivity.
Defined.

(** ** The collection under every action of the application *)

Lemma store_ok_saveToDatabase (s : Stations.t) :
  ascending (Stations.stationList s) → store_ok (Stations.saveToDatabase s).
Proof.
  intros Hs. destruct (persisted_saveToDatabase s) as [Hlist Hlast].
  split_and!; [done|intros l|intros q|intros l].
  - rewrite Hlist. by intros [= <-].
  - by rewrite Hlist.
  - by rewrite Hlast.
Qed.

Lemma store_ok_run (c : Stations.call) (s : Stations.t) :
  store_ok s → store_ok (Stations.run c s).
Proof.
  intros [Hs _].
  pose proof (run_ascending c s Hs) as Hs'.
  destruct c as [name frequency overwrite|frequency|];
    apply store_ok_saveToDatabase; exact Hs'.
Qed.

Lemma store_ok_setLastFrequency (f : Q) (s : Stations.t) :
  store_ok s → store_ok (Stations.setLastFrequency f s).
Proof. intros [Hs _]. by apply store_ok_saveToDatabase. Qed.

Lemma refreshStation_ok (w : world) :
  store_ok (stations w) → store_ok (stations (Main.refreshStation w)).
Proof. apply store_ok_setLastFrequency. Qed.

Lemma tune_ok (f : Q) (w : world) :
  store_ok (stations w) → store_ok (stations (Main.tune f w)).
Proof.
  intros Hok. unfold Main.tune. apply refreshStation_ok.
  by destruct (start_fields (Main.tune_frequency f) w) as (_ & -> & _).
Qed.

Lemma e_fire_ok name (frequency : option Q) (w w' : world) :
  store_ok (stations w) → Main.e_fire name frequency w = Some w' →
  store_ok (stations w').
Proof.
  intros Hok. unfold Main.e_fire, Main.switchToFrequency.
  repeat case_decide; destruct frequency; intros [= <-];
    auto using tune_ok, refreshStation_ok.
Qed.

Lemma save_found_ok (fs : list Q) (i : nat) (w : world) :
  store_ok (stations w) → store_ok (stations (Radio.save_found i fs w)).
Proof.
  revert i w. induction fs as [|f fs IH]; intros i w Hok; simpl; [done|].
  apply IH. simpl.
  apply (store_ok_run (Stations.Save _ f Js.Undefined)), Hok.
Qed.

Lemma Main_seek_stations (w : world) :
  stations (Main.seekUp w) = stations w
  ∧ stations (Main.seekDown w) = stations w.
Proof.
  unfold Main.seekUp, Main.seekDown, Radio.seekUp, Radio.seekDown.
  destruct (buttonBlock (view w)); [done|]. by repeat case_decide.
Qed.

Lemma run_callback_ok (cb : FMRadio.callback) (w : world) :
  store_ok (stations w) → store_ok (stations (App.run_callback cb w)).
Proof.
  intros Hok. destruct cb; cbn [App.run_callback]; [|done|done|].
  - unfold Radio.scanStopSuccess. cbn [with_radio stations].
    by destruct (start_fields (frequencyBeforeScan (radio w)) w)
      as (_ & -> & _).
  - by apply refreshStation_ok.
Qed.

Lemma queryCallback_ok key (w w' : world) :
  store_ok (stations w) → App.database_read key w = Some w' →
  store_ok (stations w').
Proof.
  intros Hok. unfold App.database_read, StationsDb.queryCallback.
  destruct (Stations.idb (stations w) !! key) as [[l|q]|] eqn:Hdb.
  - case_decide as Hkey.
    + intros [= <-]. subst key. destruct Hok as (_ & Hdbok & Hnum & Hlast).
      split_and!; [by apply Hdbok | done..].
    + case_decide; [done|]. by intros [= <-].
  - case_decide; [by intros [= <-]|].
    case_decide; [done|]. case_decide; [|by intros [= <-]].
    by apply e_fire_ok.
  - by intros [= <-].
Qed.

Lemma step_ok (a : App.action) (w w' : world) :
  store_ok (stations w) → App.step a w = Some w' → store_ok (stations w').
Proof.
  intros Hok. destruct a; cbn [App.step].
  - intros [= <-]. unfold Main.tuneUp. by apply tune_ok.
  - intros [= <-]. unfold Main.tuneDown. by apply tune_ok.
  - intros [= <-]. by rewrite (proj1 (Main_seek_stations w)).
  - intros [= <-]. by rewrite (proj2 (Main_seek_stations w)).
  - unfold Main.nextStation. destruct (Stations.nextStation _ _); [|done].
    cbn [App.of_completion]. intros [= <-].
    case_decide; [done|]. by apply tune_ok.
  - unfold Main.prevStation. destruct (Stations.prevStation _ _); [|done].
    cbn [App.of_completion]. intros [= <-].
    case_decide; [done|]. by apply tune_ok.
  - intros [= <-]. unfold Main.onScanBtnClick, Radio.scanStart.
    by case_decide.
  - intros [= <-]. unfold Main.scanStop, Radio.scanStop. by case_decide.
  - intros [= <-]. by apply tune_ok.
  - intros [= <-]. unfold Main.saveStationName. apply refreshStation_ok.
    by apply (store_ok_run (Stations.Save _ _ _)).
  - unfold StationList.updateName. apply e_fire_ok.
    by apply (store_ok_run (Stations.Save _ _ _)).
  - unfold StationList.remove. rewrite setupRemoveButton_same.
    apply e_fire_ok. by apply (store_ok_run (Stations.Remove _)).
  - unfold StationList.removeAll. rewrite setupRemoveButton_same.
    intros [= <-]. by apply (store_ok_run Stations.RemoveAll).
  - unfold StationList.onStationListClick. by apply e_fire_ok.
  - by intros [= <-].
  - unfold App.scan_finished, Radio.onFinished. apply e_fire_ok.
    by apply save_found_ok.
  - intros [= <-]. unfold App.scanStop_succeeded.
    destruct (FMRadio.scanStopRequest _) as [[cb ?]|]; [|done].
    by apply run_callback_ok.
  - intros [= <-]. unfold App.scanStop_failed.
    by destruct (FMRadio.scanStopRequest _) as [[? ?]|].
  - by intros [= <-].
  - intros [= <-]. unfold Radio.onInterrputedFinish.
    by destruct (start_fields (Radio.getFrequency w) w) as (_ & -> & _).
  - intros [= <-]. unfold Radio.onChangeAntennaConnectionListener.
    destruct isAntennaConnected; [|done].
    by destruct (start_fields (Radio.getFrequency w) w) as (_ & -> & _).
  - by apply queryCallback_ok.
Qed.

Lemma onFinished_fires (e_fire : listener) (fs : list Q) (w : world) :
  Radio.onFinished e_fire fs w
  = e_fire "models.radio.switchToFrequency" (fs !! 0%nat)
      (Radio.onFinished_saved fs w).
Proof. reflexivity. Qed.

Lemma tune_undefined_ok (w w' : world) :
  store_ok (stations w) → Main.tune_undefined w w' → store_ok (stations w').
Proof.
  intros Hok. unfold Main.tune_undefined. case_decide.
  - intros [device [-> | ->]]; [done|]. by apply refreshStation_ok.
  - intros ->. by apply refreshStation_ok.
Qed.

Lemma tune_undefined_total (w : world) : ∃ w', Main.tune_undefined w w'.
Proof.
  unfold Main.tune_undefined. case_decide; [|eauto].
  exists (with_fmradio (λ _, fmradio w) w), (fmradio w). by left.
Qed.

Lemma served_ok (a : App.action) (w w' : world) :
  store_ok (stations w) → App.served a w w' → store_ok (stations w').
Proof.
  intros Hok. unfold App.served.
  destruct (App.step a w) as [w1|] eqn:Hstep.
  - intros ->. by eapply step_ok.
  - destruct a; try done.
    + by intros ->.
    + by intros ->.
    + apply tune_undefined_ok. unfold Radio.onFinished_saved.
      by apply save_found_ok.
Qed.

(** Every action has an outcome: no handler leaves the model when the
    database holds values of the types that the application writes. *)
Lemma served_total (a : App.action) (w : world) :
  store_ok (stations w) → ∃ w', App.served a w w'.
Proof.
  intros (_ & _ & Hnum & Hlast). unfold App.served.
  destruct (App.step a w) as [w1|] eqn:Hstep; [eauto|].
  destruct a; cbn [App.step] in Hstep; try discriminate;
    eauto using tune_undefined_total.
  - unfold StationList.remove in Hstep.
    by rewrite setupRemoveButton_same, e_fire_refreshStation in Hstep.
  - unfold App.database_read, StationsDb.queryCallback in Hstep.
    destruct (Stations.idb (stations w) !! key) as [[l|q]|] eqn:Hdb;
      [| |done].
    + case_decide; [done|]. case_decide; [|done]. subst key.
      by destruct (Hlast l).
    + case_decide; [done|]. case_decide; [subst key; by destruct (Hnum q)|].
      by case_decide.
Qed.

Lemma session_ok (acts : list App.action) (w w' : world) :
  store_ok (stations w) → App.session acts w w' → store_ok (stations w').
Proof.
  revert w. induction acts as [|a acts IH]; intros w Hok; simpl.
  - by intros ->.
  - intros (w1 & Hserved & Hrest). apply (IH w1); [|done].
    by eapply served_ok.
Qed.

Lemma session_total (acts : list App.action) (w : world) :
  store_ok (stations w) → ∃ w', App.session acts w w'.
Proof.
  revert w. induction acts as [|a acts IH]; intros w Hok; simpl; [eauto|].
  destruct (served_total a w Hok) as [w1 Hserved].
  destruct (IH w1) as [w' Hrest]; [by eapply served_ok|]. eauto.
Qed.

(** X25.  The order of the collection under everything that can happen.
    Whatever the user presses and the device and the database report, in
    any order, the application serves it, and the collection stays strictly
    ascending by frequency with no frequency twice, when it was so before
    and the database holds, if anything, a collection in order and a number
    under the keys of the module.  A handler that throws (the next or the
    previous station with nothing saved) is aborted and the next action is
    served; after a scan that found nothing the device is free in what it
    does with [start(undefined)]. *)
Theorem application_keeps_collection_in_order (acts : list App.action)
    (w : world) :
  store_ok (stations w) →
  (∃ w', App.session acts w w')
  ∧ ∀ w', App.session acts w w' →
      strictly_ascending (Stations.getStationList (stations w'))
      ∧ no_duplicate_frequency (Stations.getStationList (stations w'))
      ∧ store_ok (stations w').
Proof.
  intros Hok. split; [by apply session_total|]. intros w' Hsession.
  pose proof (session_ok acts w w' Hok Hsession) as Hok'.
  pose proof (ascending_strictly _ (proj1 Hok')) as Hasc.
  split_and!; [done| |done]. by apply strictly_no_duplicate.
Qed.

Lemma application_keeps_collection_in_order_witness :
  (∃ w', App.session sample_session idle_world w')
  ∧ ∀ w', App.session sample_session idle_world w' →
      strictly_ascending (Stations.getStationList (stations w'))
      ∧ no_duplicate_frequency (Stations.getStationList (stations w'))
      ∧ store_ok (stations w').
Proof.
  apply (application_keeps_collection_in_order sample_session idle_world).
  split_and!; [constructor|intros l Hl|intros q Hq|intros l Hl];
    vm_compute in *; discriminate.
Defined.

(** ** The start of the application *)

(** X26.  At the start, the radio is initialized only on a device that
    reports the radio capability and has its antenna connected: then the
    bounds of the radio module are those of the device and the radio is
    started at the last frequency of the store, or at the lower bound of
    the device when the last frequency is 0, as it is and not wrapped into
    the bounds; the device plays it, unless it is in a scan, where [start]
    does nothing and the device receives no call.  On a device without the
    capability or without the antenna the device receives no call at all,
    and one popup that ends the application is shown. *)
Theorem startup_requirements (capability : option bool)
    (isAntennaConnected : bool) (w : world) :
  let w' := Startup.init capability isAntennaConnected w in
  let last := Stations.getLastFrequency (stations w) in
  let first :=
    if decide (last == 0)%Q
    then FMRadio.frequencyLowerBound (fmradio w) else last in
  (capability = Some true ∧ isAntennaConnected = true
   ∧ minFrequency (radio w') = FMRadio.frequencyLowerBound (fmradio w)
   ∧ maxFrequency (radio w') = FMRadio.frequencyUpperBound (fmradio w)
   ∧ stations w' = stations w
   ∧ popup w' = popup w
   ∧ w' = Radio.start first
            (with_radio
               (set_bounds (FMRadio.frequencyLowerBound (fmradio w))
                           (FMRadio.frequencyUpperBound (fmradio w))) w)
   ∧ ((FMRadio.state_of (fmradio w) ≠ FMRadio.SCANNING
       ∧ FMRadio.state_of (fmradio w') = FMRadio.PLAYING
       ∧ FMRadio.frequency (fmradio w') = first
       ∧ FMRadio.calls (fmradio w')
         = FMRadio.calls (fmradio w) ++ [FMRadio.Start first])
      ∨ (FMRadio.state_of (fmradio w) = FMRadio.SCANNING
         ∧ fmradio w' = fmradio w)))
  ∨ ((capability ≠ Some true ∨ isAntennaConnected = false)
     ∧ fmradio w' = fmradio w
     ∧ radio w' = radio w
     ∧ stations w' = stations w
     ∧ ∃ title text,
         popup w' = popup w ++ [Popup.ShowPopup "main-page" title text]).
Proof.
  cbv zeta.
  unfold Startup.init, Startup.checkRequirements, Startup.isRadioSupported.
  destruct capability as [[|]|]; simpl.
  - destruct isAntennaConnected; simpl.
    + left. unfold Main.init, Radio.init. cbv zeta.
      set (w0 := with_radio
                   (set_bounds (FMRadio.frequencyLowerBound (fmradio w))
                               (FMRadio.frequencyUpperBound (fmradio w))) w).
      change (stations w0) with (stations w).
      change (minFrequency (radio w0))
        with (FMRadio.frequencyLowerBound (fmradio w)).
      set (first := if decide (Stations.getLastFrequency (stations w) == 0)%Q
                    then FMRadio.frequencyLowerBound (fmradio w)
                    else Stations.getLastFrequency (stations w)).
      destruct (start_fields first w0) as (Hradio & Hstations & Hpopup & _).
      rewrite Hradio, Hstations, Hpopup.
      split_and!; [done..|].
      unfold Radio.start. change (fmradio w0) with (fmradio w).
      case_decide as Hstate.
      * left. done.
      * right. split; [|done]. by destruct (FMRadio.state_of (fmradio w)).
    + right. split; [by right|]. split_and!; [done..|]. eauto.
  - right. split; [by left|]. split_and!; [done..|]. eauto.
  - right. split; [by left|]. split_and!; [done..|]. eauto.
Qed.

Lemma startup_requirements_witness :
  let w' := Startup.init (Some true) true saved_world in
  (Some true = Some true ∧ true = true
   ∧ minFrequency (radio w') = 87.5%Q
   ∧ maxFrequency (radio w') = 108.0%Q
   ∧ stations w' = stations saved_world
   ∧ popup w' = popup saved_world
   ∧ w' = Radio.start 95.5
            (with_radio (set_bounds 87.5 108.0) saved_world)
   ∧ ((FMRadio.state_of (fmradio saved_world) ≠ FMRadio.SCANNING
       ∧ FMRadio.state_of (fmradio w') = FMRadio.PLAYING
       ∧ FMRadio.frequency (fmradio w') = 95.5%Q
       ∧ FMRadio.calls (fmradio w')
         = FMRadio.calls (fmradio saved_world) ++ [FMRadio.Start 95.5])
      ∨ (FMRadio.state_of (fmradio saved_world) = FMRadio.SCANNING
         ∧ fmradio w' = fmradio saved_world)))
  ∨ ((Some true ≠ Some true ∨ true = false)
     ∧ fmradio w' = fmradio saved_world
     ∧ radio w' = radio saved_world
     ∧ stations w' = stations saved_world
     ∧ ∃ title text,
         popup w'
         = popup saved_world ++ [Popup.ShowPopup "main-page" title text]).
Proof. apply (startup_requirements (Some true) true saved_world). Defined.
